(** * utilsymbolic.py: coefficient extraction and common-factor simplification

    A shallow embedding of [expandPower], [extractVarEq] and
    [simplifyExpanded] from [main/geo/generate/python/utilsymbolic.py],
    together with the Python string operations they are written with, and of
    the naming of [symMatrix] and [symVector], of [symCrossMat3x3] and of
    [printData] from the same file.

    Python 2 byte strings are [string]s; an exception raised by the code is an
    explicit [Raise], and the recursion of [simplifyExpanded], which is not
    structural, is driven by a fuel argument: a call that no fuel brings to
    an end is a call that never returns (CPython cuts such a recursion short
    with a RuntimeError at its recursion limit; no string comes back either
    way). *)

From Stdlib Require Import String Ascii List Arith Bool Lia Permutation.
From Stdlib Require Import Ring ZArith.
Import ListNotations.
Open Scope list_scope.
Open Scope string_scope.

(** ** Results of a Python call *)

Inductive exn : Type :=
| IndexError   (* subscript of an empty sequence *)
| ValueError.  (* int() of a non-digit *)

Inductive res (A : Type) : Type :=
| Ok (a : A)          (* the call returns [a] *)
| Raise (e : exn)     (* the call raises [e] *)
| NoFuel.             (* the recursion budget ran out before the call ended *)

Arguments Ok {A} a.
Arguments Raise {A} e.
Arguments NoFuel {A}.

Definition bind {A B : Type} (m : res A) (k : A -> res B) : res B :=
  match m with
  | Ok a => k a
  | Raise e => Raise e
  | NoFuel => NoFuel
  end.

Notation "x <- m ;; k" := (bind m (fun x => k))
  (at level 61, m at next level, right associativity).

Fixpoint mapM {A B : Type} (f : A -> res B) (l : list A) : res (list B) :=
  match l with
  | [] => Ok []
  | a :: l' => b <- f a ;; bs <- mapM f l' ;; Ok (b :: bs)
  end.

Fixpoint foldM {A B : Type} (f : A -> B -> res A) (l : list B) (a : A) : res A :=
  match l with
  | [] => Ok a
  | b :: l' => a' <- f a b ;; foldM f l' a'
  end.

(** ** Python string operations *)

Module Py.

(** [len(s) == 0] *)
Definition is_empty (s : string) : bool :=
  match s with "" => true | _ => false end.

(** [s[0]]: [None] stands for the IndexError of an empty [s]. *)
Definition first (s : string) : option ascii :=
  match s with "" => None | String c _ => Some c end.

(** [s[1:]] *)
Definition tail (s : string) : string :=
  match s with "" => "" | String _ r => r end.

(** [s[-1]] *)
Fixpoint last (s : string) : option ascii :=
  match s with
  | "" => None
  | String c "" => Some c
  | String _ r => last r
  end.

(** [s[:-1]] *)
Fixpoint drop_last (s : string) : string :=
  match s with
  | "" => ""
  | String _ "" => ""
  | String c r => String c (drop_last r)
  end.

(** [s[:n]] *)
Fixpoint take (n : nat) (s : string) : string :=
  match n, s with
  | S n', String c r => String c (take n' r)
  | _, _ => ""
  end.

(** [s[n:]] *)
Fixpoint drop (n : nat) (s : string) : string :=
  match n, s with
  | S n', String _ r => drop n' r
  | _, _ => s
  end.

(** [s.startswith(p)] *)
Fixpoint starts_with (p s : string) : bool :=
  match p, s with
  | "", _ => true
  | String a p', String b s' => Ascii.eqb a b && starts_with p' s'
  | String _ _, "" => false
  end.

(** [text.find(sub)]: the lowest index at which [sub] occurs; [None] stands
    for Python's [-1]. *)
Fixpoint find (text sub : string) : option nat :=
  if starts_with sub text then Some 0
  else match text with
       | "" => None
       | String _ r => option_map S (find r sub)
       end.

(** [sub in text] *)
Definition contains (text sub : string) : bool :=
  match find text sub with Some _ => true | None => false end.

(** [text.replace(old, new)] for a non-empty [old], as at every call site
    (['- '], ['-'], ['-*']): occurrences are replaced from the left and do not
    overlap; [skip] counts the characters of a replaced occurrence still to
    be passed over. *)
Fixpoint replace_from (old new : string) (skip : nat) (text : string) : string :=
  match text with
  | "" => ""
  | String c r =>
      match skip with
      | S k => replace_from old new k r
      | 0 => if starts_with old text
             then new ++ replace_from old new (String.length old - 1) r
             else String c (replace_from old new 0 r)
      end
  end.

Definition replace (old new text : string) : string :=
  replace_from old new 0 text.

(** [text.split(sep)] for a one-character separator, as at every call site
    ([' '] and ['*']); the result is never empty. *)
Fixpoint split (sep : ascii) (text : string) : list string :=
  match text with
  | "" => [""]
  | String c r =>
      if Ascii.eqb c sep then "" :: split sep r
      else match split sep r with
           | w :: ws => String c w :: ws
           | [] => [String c ""]
           end
  end.

(** [c.isdigit()] on one byte *)
Definition isdigit (c : ascii) : bool :=
  let n := nat_of_ascii c in ((48 <=? n)%nat && (n <=? 57)%nat)%bool.

(** [int(c)] for a one-character string *)
Definition int_of_char (c : ascii) : res nat :=
  if isdigit c then Ok (nat_of_ascii c - 48) else Raise ValueError.

End Py.

(** ** expandPower *)

(** [s[-2] == '^'] under the guard [len(s) >= 3] *)
Definition is_power (s : string) : bool :=
  (3 <=? String.length s)%nat
  && match Py.last (Py.drop_last s) with
     | Some c => Ascii.eqb c "^"
     | None => false
     end.

(** [expanded = var; for i in range(n-1): expanded += '*'+var] *)
Fixpoint repeat_var (var : string) (n : nat) (expanded : string) : string :=
  match n with
  | 0 => expanded
  | S n' => repeat_var var n' (expanded ++ "*" ++ var)
  end.

(** One turn of the loop [for s in l] over the accumulated [expression]. *)
Definition expandPower_step (expression s : string) : res string :=
  if is_power s then
    let var := Py.drop_last (Py.drop_last s) in
    match Py.last s with
    | None => Raise IndexError
    | Some d =>
        n <- Py.int_of_char d ;;
        Ok (expression ++ repeat_var var (n - 1) var ++ "*")
    end
  else Ok (expression ++ s ++ "*").

Definition expandPower (expression : string) : res string :=
  match Py.split "*" expression with
  | [] => Raise IndexError
  | l0 :: l' =>
      match Py.first l0 with
      | None => Raise IndexError
      | Some c =>
          let '(l, sign) :=
            if Ascii.eqb c "-" then (Py.tail l0 :: l', "-") else (l0 :: l', "") in
          expression <- foldM expandPower_step l sign ;;
          Ok (Py.drop_last expression)
      end
  end.

(** ** extractVarEq *)

(** [chars = set('xyz')]; [any(c in chars for c in w)] *)
Definition in_chars (c : ascii) : bool :=
  Ascii.eqb c "x" || Ascii.eqb c "y" || Ascii.eqb c "z".

Fixpoint any_in_chars (w : string) : bool :=
  match w with
  | "" => false
  | String c r => in_chars c || any_in_chars r
  end.

(** The test of the empty-key comprehension. *)
Definition keep_constant (w : string) : bool :=
  negb (String.length w =? 1)%nat && negb (any_in_chars w).

(** [w[0:w.find(key)] + w[w.find(key)+len(key):]] *)
Definition strip_key (key w : string) : string :=
  match Py.find w key with
  | Some i => Py.take i w ++ Py.drop (i + String.length key) w
  | None => w
  end.

(** The selection of the blocks, for either kind of key. *)
Definition select (key : string) (s : list string) : list string :=
  if Py.is_empty key then filter keep_constant s
  else map (strip_key key) (filter (fun w => Py.contains w key) s).

(** The [if/elif] chain that repairs a block after the key was deleted. *)
Definition fixup (w : string) : string :=
  if Py.is_empty w then "1"
  else if (String.length w =? 1)%nat
          && match Py.first w with Some c => Ascii.eqb c "-" | None => false end
       then "-1"
  else if match Py.last w with Some c => Ascii.eqb c "*" | None => false end
       then Py.drop_last w
  else if match Py.first w with Some c => Ascii.eqb c "*" | None => false end
       then Py.tail w
  else w.

(** One turn of the loop that joins signed terms, shared in shape by
    [extractVarEq] and [reconstruct]. *)
Definition join_step (ret w : string) : res string :=
  match Py.first w with
  | None => Raise IndexError
  | Some c =>
      if Ascii.eqb c "-" then Ok (ret ++ " - " ++ Py.tail w)
      else Ok (ret ++ " + " ++ w)
  end.

(** [s = expression.replace('- ','-').split(' ')] *)
Definition blocks (expression : string) : list string :=
  Py.split " " (Py.replace "- " "-" expression).

(** What [extractVarEq] does with the selected blocks [var]: the early
    return, the repairs, the power expansion and the signed join. *)
Definition assemble (var : list string) : res string :=
  if (List.length var =? 0)%nat then Ok ""
  else
    let var := map (Py.replace "-*" "-") var in
    let var := map fixup var in
    var <- mapM expandPower var ;;
    match var with
    | [] => Raise IndexError
    | v0 :: var' => foldM join_step var' v0
    end.

(** The body of [extractVarEq] after [str(expression.expand())]. *)
Definition extractVarEq_str (expression key : string) : res string :=
  assemble (select key (blocks expression)).

(** [expression.expand()] is a call into Sage; [expand] stands for
    [str(expression.expand())]. *)
Definition extractVarEq {E : Type} (expand : E -> string)
    (expression : E) (key : string) : res string :=
  extractVarEq_str (expand expression) key.

(** ** simplifyExpanded *)

(** The nested helper [removeSubString]: the first candidate found in [text]
    is cut out; a candidate that both starts and ends with a star leaves one
    star behind. *)
Fixpoint removeSubString (text : string) (candidates : list string) : res string :=
  match candidates with
  | [] => Ok text
  | s :: rest =>
      let l := String.length s in
      match Py.find text s with
      | Some i =>
          match Py.first s, Py.last s with
          | Some a, Some b =>
              if Ascii.eqb a "*" && Ascii.eqb b "*"
              then Ok (Py.take i text ++ "*" ++ Py.drop (i + l) text)
              else Ok (Py.take i text ++ Py.drop (i + l) text)
          | _, _ => Raise IndexError
          end
      | None => removeSubString text rest
      end
  end.

(** The nested helper [removeVariable]. *)
Definition removeVariable (text s : string) : res string :=
  removeSubString text ["*" ++ s ++ "*"; s ++ "*"; "*" ++ s].

(** The nested helper [reconstruct]. *)
Definition reconstruct (sequence : list string) : res string :=
  match sequence with
  | [] => Raise IndexError
  | w0 :: ws => foldM join_step ws w0
  end.

(** The frequency dictionary: keys in the order of their first insertion. *)
Definition dict : Type := list (string * nat).

(** [if dict.has_key(v): dict[v] += 1  else: dict[v] = 1] *)
Fixpoint count_var (d : dict) (v : string) : dict :=
  match d with
  | [] => [(v, 1)]
  | (k, n) :: d' =>
      if String.eqb k v then (k, S n) :: d' else (k, n) :: count_var d' v
  end.

(** The loop [for w in s] that fills the dictionary. *)
Definition count_vars (s : list string) : dict :=
  fold_left
    (fun d w => fold_left count_var (Py.split "*" (Py.replace "-" "" w)) d)
    s [].

(** One turn of the loop that keeps the best entry seen so far. *)
Definition best_step (best : string * nat) (kv : string * nat) : string * nat :=
  let '(bestVar, bestCount) := best in
  let '(k, v) := kv in
  if (bestCount <? v)%nat then (k, v) else (bestVar, bestCount).

(** [s = input.replace('- ','-').split(' ')] followed by
    [s = [w for w in s if len(w) > 1]] *)
Definition terms (input : string) : list string :=
  filter (fun w => (1 <? String.length w)%nat) (blocks input).

Section Simplifier.

(** [dict.items()] of a Python 2 dictionary lists the entries in an order
    that the program does not control: [items] is that order. *)
Variable items : dict -> list (string * nat).

Definition best_var (d : dict) : string :=
  fst (fold_left best_step (items d) ("", 0)).

Fixpoint simplifyExpanded (fuel : nat) (input : string) : res string :=
  match fuel with
  | 0 => NoFuel
  | S fuel' =>
      if Py.is_empty input then Ok ""
      else
        let s := terms input in
        let bestVar := best_var (count_vars s) in
        let include := filter (fun w => Py.contains w bestVar) s in
        let exclude := filter (fun w => negb (Py.contains w bestVar)) s in
        include <- mapM (fun w => removeVariable w bestVar) include ;;
        let output := bestVar ++ "*( " in
        match Py.first bestVar with
        | None => Raise IndexError
        | Some c =>
            inner <- (if Py.isdigit c
                      then r <- reconstruct include ;; simplifyExpanded fuel' r
                      else reconstruct include) ;;
            let output := output ++ inner ++ " )" in
            if negb (List.length exclude =? 0)%nat
            then r <- reconstruct exclude ;;
                 rest <- simplifyExpanded fuel' r ;;
                 Ok (output ++ " + " ++ rest)
            else Ok output
        end
  end.

End Simplifier.

(** The order of first insertion, one admissible iteration order. *)
Definition insertion_order (d : dict) : list (string * nat) := d.

(** ** symMatrix and symVector *)

(** [str(n)] of a non-negative integer: its decimal digits, the last one
    peeled off at each turn; [fuel] bounds the number of turns. *)
Fixpoint str_digits (fuel n : nat) : string :=
  match fuel with
  | 0 => ""
  | S fuel' =>
      if (n <? 10)%nat then String (ascii_of_nat (48 + n)) ""
      else str_digits fuel' (n / 10) ++ String (ascii_of_nat (48 + n mod 10)) ""
  end.

Definition str (n : nat) : string := str_digits (S n) n.

Fixpoint zeros (k : nat) : string :=
  match k with 0 => "" | S k' => String "0" (zeros k') end.

(** ['%0<width>d' % i] for a non-negative [i]: zeros in front up to [width]
    characters, nothing cut off. *)
Definition zero_pad (width i : nat) : string :=
  zeros (width - String.length (str i)) ++ str i.

(** [symMatrix]: the names handed to [var], row by row, as
    ['%s%0<n>d%0<n>d' % (letter, i, j)] writes them; the matrix that holds
    the symbols is Sage's. *)
Definition symMatrix (numRows numCols : nat) (letter : string) : list (list string) :=
  let n := Nat.max (String.length (str numRows)) (String.length (str numCols)) in
  map (fun i => map (fun j => letter ++ zero_pad n i ++ zero_pad n j) (seq 0 numCols))
      (seq 0 numRows).

(** [symVector]: the names handed to [var], from top to bottom. *)
Definition symVector (numRows : nat) (letter : string) : list string :=
  let n := String.length (str numRows) in
  map (fun i => letter ++ zero_pad n i) (seq 0 numRows).

(** ** symCrossMat3x3 *)

Section CrossMatrix.

(** The entries are symbolic expressions: elements of a commutative ring,
    of which the function uses 0, 1, the product and the opposite. *)
Variable R : Type.
Variables (rO rI : R) (rmul : R -> R -> R) (ropp : R -> R).

(** [M[i][j]], also written [M[i,j]] *)
Definition entry (M : list (list R)) (i j : nat) : res R :=
  match nth_error M i with
  | Some row =>
      match nth_error row j with
      | Some x => Ok x
      | None => Raise IndexError
      end
  | None => Raise IndexError
  end.

Fixpoint set_nth {A : Type} (i : nat) (x : A) (l : list A) : list A :=
  match l, i with
  | [], _ => []
  | _ :: l', 0 => x :: l'
  | a :: l', S i' => a :: set_nth i' x l'
  end.

(** [M[i,j] = x], for [i] and [j] inside [M] as at every call site *)
Definition set_entry (i j : nat) (x : R) (M : list (list R)) : list (list R) :=
  match nth_error M i with
  | Some row => set_nth i (set_nth j x row) M
  | None => M
  end.

(** [matrix(SR, rows, cols)]: all entries zero *)
Definition zero_matrix (rows cols : nat) : list (list R) :=
  repeat (repeat rO cols) rows.

Definition symCrossMat3x3 (v : list (list R)) : res (list (list R)) :=
  let A := zero_matrix 3 3 in
  x <- entry v 2 0 ;; let A := set_entry 0 1 (rmul (ropp rI) x) A in
  x <- entry v 1 0 ;; let A := set_entry 0 2 x A in
  x <- entry v 2 0 ;; let A := set_entry 1 0 x A in
  x <- entry v 0 0 ;; let A := set_entry 1 2 (rmul (ropp rI) x) A in
  x <- entry v 1 0 ;; let A := set_entry 2 0 (rmul (ropp rI) x) A in
  x <- entry v 0 0 ;; let A := set_entry 2 1 x A in
  Ok A.

End CrossMatrix.

Arguments entry {R} M i j.
Arguments symCrossMat3x3 {R} rO rI rmul ropp v.

(** ** printData *)

(** ['%s.data[%d] = %s;\n' % (var, index, rhs)] *)
Definition data_line (var : string) (index : nat) (rhs : string) : string :=
  var ++ ".data[" ++ str index ++ "] = " ++ rhs ++ ";" ++ String (ascii_of_nat 10) "".

Section PrintData.

Variable items : dict -> list (string * nat).
Variable fuel : nat.
Variable E : Type.
Variable expand : E -> string.

(** One turn of the loop [for k in keys]: the state is [index] and the
    lines written so far. *)
Definition write_key (var : string) (eq : E) (st : nat * list string) (k : string)
  : res (nat * list string) :=
  let '(index, out) := st in
  e <- extractVarEq expand eq k ;;
  rhs <- simplifyExpanded items fuel e ;;
  Ok (S index, (out ++ [data_line var index rhs])%list).

(** One turn of the loop [for row,eq in enumerate(eqs)]. *)
Definition write_row (var : string) (keys : list string) (out : list string)
    (row_eq : nat * E) : res (list string) :=
  let '(row, eq) := row_eq in
  let index := List.length keys * row in
  st <- foldM (write_key var eq) keys (index, out) ;;
  Ok (snd st).

(** [printData]: the lines written to the file ['%s.txt' % var], in order. *)
Definition printData (var : string) (eqs : list E) (keys : list string)
  : res (list string) :=
  foldM (write_row var keys) (combine (seq 0 (List.length eqs)) eqs) [].

End PrintData.

Arguments write_key items fuel {E} expand var eq st k.
Arguments write_row items fuel {E} expand var keys out row_eq.
Arguments printData items fuel {E} expand var eqs keys.

(** ** Vocabulary of the statements *)

(** [key] occurs in [w] as a substring. *)
Definition occurs (key w : string) : Prop :=
  exists p q, w = p ++ key ++ q.

(** A factor holds no star. *)
Definition no_star (f : string) : Prop :=
  ~ In "*"%char (list_ascii_of_string f).

(** A factor shorter than three characters, or whose last character but one
    is not a caret. *)
Definition plain (f : string) : Prop :=
  String.length f < 3 \/ forall p d, f <> p ++ "^" ++ String d "".

(** The decimal digit [k] as a one-character string. *)
Definition digit (k : nat) : string := String (ascii_of_nat (48 + k)) "".

(** The factor [v^k]. *)
Definition power (v : string) (k : nat) : string := v ++ "^" ++ digit k.

(** A term: an optional minus sign glued to factors joined by stars. *)
Definition term (neg : bool) (factors : list string) : string :=
  (if neg then "-" else "") ++ String.concat "*" factors.

(** The first factor is not empty and does not begin with a minus sign. *)
Definition unsigned_head (factors : list string) : Prop :=
  match factors with
  | f :: _ => exists c r, f = String c r /\ c <> "-"%char
  | [] => False
  end.

(** Every factor followed by a star, as the loop of [expandPower] builds it. *)
Fixpoint stars (gs : list string) : string :=
  match gs with
  | [] => ""
  | g :: gs' => g ++ "*" ++ stars gs'
  end.

(** The part of [simplifyExpanded] that follows the choice of [bestVar],
    with the recursive calls going through [self]. *)
Definition emit (self : string -> res string) (s : list string)
    (bestVar : string) : res string :=
  let include := filter (fun w => Py.contains w bestVar) s in
  let exclude := filter (fun w => negb (Py.contains w bestVar)) s in
  include <- mapM (fun w => removeVariable w bestVar) include ;;
  let output := bestVar ++ "*( " in
  match Py.first bestVar with
  | None => Raise IndexError
  | Some c =>
      inner <- (if Py.isdigit c
                then r <- reconstruct include ;; self r
                else reconstruct include) ;;
      let output := output ++ inner ++ " )" in
      if negb (List.length exclude =? 0)%nat
      then r <- reconstruct exclude ;;
           rest <- self r ;;
           Ok (output ++ " + " ++ rest)
      else Ok output
  end.

(** The characters of a string. *)
Definition chars (s : string) : list ascii := list_ascii_of_string s.

(** A factor as [expandPower] reads it: plain text, or [v^k]. *)
Inductive factor : Type :=
| Plain (f : string)
| Power (v : string) (k : nat).

Definition factor_text (f : factor) : string :=
  match f with Plain f => f | Power v k => power v k end.

(** What a factor expands to: itself, or [k] copies of [v], one copy when
    [k] is zero. *)
Definition factor_expansion (f : factor) : list string :=
  match f with Plain f => [f] | Power v k => repeat v (Nat.max 1 k) end.

Definition factor_ok (f : factor) : Prop :=
  match f with
  | Plain f => no_star f /\ plain f
  | Power v k => v <> "" /\ no_star v /\ k <= 9
  end.

(** A term that [reconstruct] and the split of [simplifyExpanded] agree on:
    not empty, without a space, and not ending in a minus sign. *)
Definition clean (w : string) : Prop :=
  w <> "" /\ ~ In " "%char (chars w) /\ Py.last w <> Some "-"%char.

(** What [reconstruct] appends for one term. *)
Definition signed (w : string) : string :=
  match Py.first w with
  | Some c => if Ascii.eqb c "-" then " - " ++ Py.tail w else " + " ++ w
  | None => ""
  end.

Fixpoint signed_sum (ws : list string) : string :=
  match ws with
  | [] => ""
  | w :: ws' => signed w ++ signed_sum ws'
  end.

(** The pieces of the split of a reconstructed text, after its first term. *)
Fixpoint pieces (ws : list string) : list string :=
  match ws with
  | [] => []
  | w :: ws' =>
      match Py.first w with
      | Some c => if Ascii.eqb c "-" then w :: pieces ws' else "+" :: w :: pieces ws'
      | None => pieces ws'
      end
  end.

(** The factors the frequency loop reads, term after term. *)
Definition factors (s : list string) : list string :=
  flat_map (fun w => Py.split "*" (Py.replace "-" "" w)) s.

(** [dict.get(k, 0)] *)
Fixpoint get (d : dict) (k : string) : nat :=
  match d with
  | [] => 0
  | (k', n) :: d' => if String.eqb k' k then n else get d' k
  end.

(** The keys of a dictionary are distinct and its counts positive. *)
Definition dict_ok (d : dict) : Prop :=
  NoDup (map fst d) /\ Forall (fun kv => 0 < snd kv) d.

(** A term with at most one minus sign, in front. *)
Definition leading_minus_only (w : string) : Prop :=
  ~ In "-"%char (chars w) \/ exists b, w = String "-" b /\ ~ In "-"%char (chars b).

(** A single factor of two characters or more, without space, minus sign or
    star. *)
Definition lone_factor (w : string) : Prop :=
  2 <= String.length w
  /\ ~ In " "%char (chars w) /\ ~ In "-"%char (chars w) /\ no_star w.

(** The number a string of decimal digits denotes, read after [acc]. *)
Fixpoint val_acc (acc : nat) (s : string) : nat :=
  match s with
  | "" => acc
  | String c r => val_acc (10 * acc + (nat_of_ascii c - 48)) r
  end.

(** The product of a row and a column, and of a matrix and a column. *)
Fixpoint dot {R : Type} (rO : R) (radd rmul : R -> R -> R) (row w : list R) : R :=
  match row, w with
  | x :: row', y :: w' => radd (rmul x y) (dot rO radd rmul row' w')
  | _, _ => rO
  end.

Definition mat_vec {R : Type} (rO : R) (radd rmul : R -> R -> R)
    (M : list (list R)) (w : list R) : list R :=
  map (fun row => dot rO radd rmul row w) M.

(** The right-hand side [printData] writes for an equation and a key. *)
Definition rhs_of {E : Type} (items : dict -> list (string * nat)) (fuel : nat)
    (expand : E -> string) (eq_k : E * string) (rhs : string) : Prop :=
  exists e, extractVarEq expand (fst eq_k) (snd eq_k) = Ok e
            /\ simplifyExpanded items fuel e = Ok rhs.

(** Lines numbered from [start] on. *)
Definition numbered (var : string) (start : nat) (rs : list string) : list string :=
  map (fun pr => data_line var (fst pr) (snd pr)) (combine (seq start (List.length rs)) rs).

(** * Properties *)

(** ** Strings *)

Lemma app_nil_r (s : string) : s ++ "" = s.
Proof. induction s as [|c s IH]; simpl; congruence. Qed.

Lemma app_assoc (a b c : string) : (a ++ b) ++ c = a ++ b ++ c.
Proof. induction a as [|x a IH]; simpl; congruence. Qed.

Lemma length_app (a b : string) :
  String.length (a ++ b) = String.length a + String.length b.
Proof. induction a as [|x a IH]; simpl; congruence. Qed.

Lemma take_app (p q : string) : Py.take (String.length p) (p ++ q) = p.
Proof. induction p as [|c p IH]; simpl; [now destruct q | congruence]. Qed.

Lemma drop_app (p q : string) : Py.drop (String.length p) (p ++ q) = q.
Proof. induction p as [|c p IH]; simpl; [now destruct q | assumption]. Qed.

Lemma starts_with_app (p q : string) : Py.starts_with p (p ++ q) = true.
Proof.
  induction p as [|c p IH]; simpl; [reflexivity|].
  now rewrite Ascii.eqb_refl.
Qed.

Lemma starts_with_inv (p s : string) :
  Py.starts_with p s = true -> exists q, s = p ++ q.
Proof.
  revert s; induction p as [|c p IH]; intros s H; simpl in *.
  - now exists s.
  - destruct s as [|d s]; [discriminate|].
    apply andb_true_iff in H as [Hc Hp].
    apply Ascii.eqb_eq in Hc; subst d.
    destruct (IH _ Hp) as [q ->]. now exists q.
Qed.

(** What [find] returns when it finds: the text splits at the index, and no
    occurrence starts earlier. *)
Lemma find_Some (sub text : string) (i : nat) :
  Py.find text sub = Some i ->
  exists p q,
    text = p ++ sub ++ q /\ String.length p = i /\
    forall p' q', text = p' ++ sub ++ q' -> i <= String.length p'.
Proof.
  revert i; induction text as [|c r IH]; intros i H; simpl in H.
  - destruct (Py.starts_with sub "") eqn:E; [|discriminate].
    injection H as <-. apply starts_with_inv in E as [q E].
    exists "", q. repeat split; [exact E|]. intros; lia.
  - destruct (Py.starts_with sub (String c r)) eqn:E.
    + injection H as <-. apply starts_with_inv in E as [q E].
      exists "", q. repeat split; [exact E|]. intros; lia.
    + destruct (Py.find r sub) as [j|] eqn:F; [|discriminate].
      injection H as <-.
      destruct (IH j eq_refl) as (p & q & Hr & Hl & Hmin).
      exists (String c p), q. simpl. repeat split; [congruence|congruence|].
      intros p' q' Hp'. destruct p' as [|c' p']; simpl in Hp'.
      * rewrite Hp', starts_with_app in E. discriminate.
      * injection Hp' as _ Hp'. simpl. apply Hmin in Hp'. lia.
Qed.

Lemma find_None (sub text : string) :
  Py.find text sub = None -> ~ occurs sub text.
Proof.
  induction text as [|c r IH]; simpl; intros H (p & q & Hpq).
  - destruct (Py.starts_with sub "") eqn:E; [discriminate|].
    destruct p; [|discriminate]. simpl in Hpq.
    rewrite Hpq, starts_with_app in E. discriminate.
  - destruct (Py.starts_with sub (String c r)) eqn:E; [discriminate|].
    destruct (Py.find r sub) eqn:F; [discriminate|].
    destruct p as [|c' p]; simpl in Hpq.
    + rewrite Hpq, starts_with_app in E. discriminate.
    + injection Hpq as _ Hr. apply IH; [reflexivity|]. now exists p, q.
Qed.

Lemma contains_occurs (key w : string) :
  Py.contains w key = true <-> occurs key w.
Proof.
  unfold Py.contains. destruct (Py.find w key) as [i|] eqn:F; split; intro H.
  - destruct (find_Some _ _ _ F) as (p & q & E & _). now exists p, q.
  - reflexivity.
  - discriminate.
  - now apply find_None in F.
Qed.

Lemma filter_none {A : Type} (f : A -> bool) (l : list A) :
  (forall a, In a l -> f a = false) -> filter f l = [].
Proof.
  induction l as [|a l IH]; intros H; simpl; [reflexivity|].
  rewrite (H a (or_introl eq_refl)). apply IH. intros; apply H; now right.
Qed.

(** ** The extractor *)

Lemma keep_constant_spec (w : string) :
  keep_constant w = true <->
  String.length w <> 1 /\
  forall c, In c (list_ascii_of_string w) -> c <> "x"%char /\ c <> "y"%char /\ c <> "z"%char.
Proof.
  unfold keep_constant. rewrite andb_true_iff, !negb_true_iff, Nat.eqb_neq.
  apply and_iff_compat_l.
  induction w as [|a w IH]; simpl.
  - split; [intros _ c []|reflexivity].
  - rewrite orb_false_iff, IH. unfold in_chars.
    rewrite !orb_false_iff, !Ascii.eqb_neq. split.
    + intros [[[Hx Hy] Hz] Hw] c [<-|Hc]; [auto|now apply Hw].
    + intros H. split; [|intros c Hc; apply H; now right].
      destruct (H a (or_introl eq_refl)) as (? & ? & ?). auto.
Qed.

Lemma strip_key_first (key w : string) :
  occurs key w ->
  exists p q,
    w = p ++ key ++ q /\ strip_key key w = p ++ q /\
    forall p' q', w = p' ++ key ++ q' -> String.length p <= String.length p'.
Proof.
  intros Hocc. unfold strip_key.
  destruct (Py.find w key) as [i|] eqn:F.
  - destruct (find_Some _ _ _ F) as (p & q & E & Hl & Hmin).
    exists p, q. split; [exact E|]. split.
    + subst i. rewrite E at 1. rewrite take_app. f_equal.
      rewrite E, <- length_app, <- app_assoc. apply drop_app.
    + now rewrite Hl.
  - now apply find_None in F.
Qed.

(** C8: when no block of the expanded expression contains the non-empty key
    as a substring, [extractVarEq] returns the empty string, an ordinary
    result and not an exception. *)
Theorem extractVarEq_key_absent {E : Type} (expand : E -> string)
    (expression : E) (key : string) :
  key <> "" ->
  (forall w, In w (blocks (expand expression)) -> ~ occurs key w) ->
  extractVarEq expand expression key = Ok "".
Proof.
  intros Hkey Hnone. unfold extractVarEq, extractVarEq_str, select.
  destruct key as [|k key]; [congruence|]. cbn [Py.is_empty].
  rewrite filter_none; [reflexivity|].
  intros w Hw. destruct (Py.contains w (String k key)) eqn:C; [|reflexivity].
  apply contains_occurs in C. now apply Hnone in C.
Qed.

Lemma extractVarEq_key_absent_witness :
  extractVarEq (fun e : string => e) "a*b + c" "q" = Ok "".
Proof.
  apply extractVarEq_key_absent.
  - discriminate.
  - intros w Hw C. apply contains_occurs in C.
    vm_compute in Hw.
    repeat (destruct Hw as [<-|Hw]; [vm_compute in C; discriminate|]).
    exact Hw.
Defined.

(** C2: on the expanded text "x*a*b y*a*a*b -c*x*d" with key "x" the code
    returns "a*b - c**d": deleting the key from the middle of "-c*x*d" leaves
    two stars side by side, which none of the repairs removes. The docstring
    announces "a*b - c*d". *)
Theorem extractVarEq_doc_example :
  extractVarEq (fun e : string => e) "x*a*b y*a*a*b -c*x*d" "x" = Ok "a*b - c**d"
  /\ extractVarEq (fun e : string => e) "x*a*b y*a*a*b -c*x*d" "x" <> Ok "a*b - c*d"
  /\ strip_key "x" "-c*x*d" = "-c**d"
  /\ fixup (Py.replace "-*" "-" "-c**d") = "-c**d".
Proof. repeat (split; [reflexivity || discriminate|]). reflexivity. Qed.

(** The same happens for any key between two factors, as in the text
    "a*b*c + d" with key "b". *)
Remark extractVarEq_infix_key :
  extractVarEq (fun e : string => e) "a*b*c + d" "b" = Ok "a**c".
Proof. reflexivity. Qed.

(** C4, as stated, fails: the block "x*a*x" holds the key twice, only the
    first is deleted, and the returned string still contains the key. *)
Lemma extractVarEq_output_contains_key :
  extractVarEq (fun e : string => e) "x*a*x" "x" = Ok "a*x"
  /\ occurs "x" "a*x".
Proof. split; [reflexivity | now exists "a*", ""]. Qed.

(** A single occurrence is no protection either: deleting the key can bring
    its two halves together, and a key that is part of a longer name leaves
    the remainder of that name behind. *)
Remark extractVarEq_key_reappears :
  extractVarEq (fun e : string => e) "aabb" "ab" = Ok "ab"
  /\ extractVarEq (fun e : string => e) "a*ab" "a" = Ok "ab".
Proof. split; reflexivity. Qed.

(** C4, amended: for a non-empty key the blocks kept are exactly those in
    which the key occurs, and from each of them one occurrence of the key is
    deleted, the leftmost one: a block [p ++ key ++ q] with no occurrence
    starting before [p] ends becomes [p ++ q]; the rest of the block,
    further occurrences included, goes on to the output. *)
Theorem extractVarEq_strips_first_occurrence {E : Type} (expand : E -> string)
    (expression : E) (key : string) :
  key <> "" ->
  exists kept,
    extractVarEq expand expression key = assemble (map (strip_key key) kept)
    /\ (forall w, In w kept <-> In w (blocks (expand expression)) /\ occurs key w)
    /\ Forall (fun w => exists p q,
                  w = p ++ key ++ q /\ strip_key key w = p ++ q /\
                  forall p' q', w = p' ++ key ++ q' ->
                                String.length p <= String.length p') kept.
Proof.
  intros Hkey.
  exists (filter (fun w => Py.contains w key) (blocks (expand expression))).
  split; [|split].
  - unfold extractVarEq, extractVarEq_str, select.
    destruct key; [congruence | reflexivity].
  - intros w. rewrite filter_In, contains_occurs. reflexivity.
  - apply Forall_forall. intros w Hw. apply filter_In in Hw as [_ Hw].
    apply strip_key_first. now apply contains_occurs.
Qed.

Lemma extractVarEq_strips_first_occurrence_witness :
  exists kept,
    extractVarEq (fun e : string => e) "x*a*x b" "x" = assemble (map (strip_key "x") kept)
    /\ (forall w, In w kept <-> In w (blocks "x*a*x b") /\ occurs "x" w)
    /\ Forall (fun w => exists p q,
                  w = p ++ "x" ++ q /\ strip_key "x" w = p ++ q /\
                  forall p' q', w = p' ++ "x" ++ q' ->
                                String.length p <= String.length p') kept.
Proof.
  apply (extractVarEq_strips_first_occurrence (fun e : string => e) "x*a*x b" "x").
  discriminate.
Defined.

(** C6, as stated, fails: with the empty key the block "a*x" is discarded
    although it is not a single character. *)
Lemma extractVarEq_empty_key_drops_product :
  extractVarEq (fun e : string => e) "a*x b*c" "" = Ok "b*c"
  /\ In "a*x" (blocks "a*x b*c")
  /\ String.length "a*x" <> 1
  /\ ~ In "a*x" (select "" (blocks "a*x b*c")).
Proof.
  split; [reflexivity|]. split; [now left|]. split; [discriminate|].
  vm_compute. intros [H|[]]. discriminate.
Qed.

(** C6, amended: with the empty key the blocks kept are exactly those whose
    length is not one and in which none of the characters x, y, z appears
    anywhere; every block of one character and every block that mentions x,
    y or z is discarded. *)
Theorem extractVarEq_empty_key {E : Type} (expand : E -> string) (expression : E) :
  extractVarEq expand expression "" = assemble (select "" (blocks (expand expression)))
  /\ forall w,
       In w (select "" (blocks (expand expression))) <->
       In w (blocks (expand expression)) /\ String.length w <> 1 /\
       forall c, In c (list_ascii_of_string w) ->
                 c <> "x"%char /\ c <> "y"%char /\ c <> "z"%char.
Proof.
  split; [reflexivity|].
  intros w. unfold select. cbn [Py.is_empty].
  rewrite filter_In, keep_constant_spec. reflexivity.
Qed.

(** ** The power expander *)

Lemma last_snoc (s : string) (c : ascii) : Py.last (s ++ String c "") = Some c.
Proof.
  induction s as [|a s IH]; [reflexivity|].
  simpl. rewrite IH. now destruct s.
Qed.

Lemma drop_last_snoc (s : string) (c : ascii) : Py.drop_last (s ++ String c "") = s.
Proof.
  induction s as [|a s IH]; [reflexivity|].
  simpl. rewrite IH. now destruct s.
Qed.

Lemma snoc_of_last (s : string) (c : ascii) :
  Py.last s = Some c -> s = Py.drop_last s ++ String c "".
Proof.
  induction s as [|a s IH]; [discriminate|].
  destruct s as [|b s]; simpl.
  - now intros [= ->].
  - intros H. f_equal. now apply IH.
Qed.

Lemma split_no_sep (sep : ascii) (f : string) :
  ~ In sep (list_ascii_of_string f) -> Py.split sep f = [f].
Proof.
  induction f as [|c f IH]; intros H; simpl in *; [reflexivity|].
  destruct (Ascii.eqb_spec c sep) as [->|_]; [tauto|].
  rewrite IH; tauto.
Qed.

Lemma split_app_sep (sep : ascii) (f r : string) :
  ~ In sep (list_ascii_of_string f) ->
  Py.split sep (f ++ String sep r) = f :: Py.split sep r.
Proof.
  induction f as [|c f IH]; intros H; simpl in *.
  - now rewrite Ascii.eqb_refl.
  - destruct (Ascii.eqb_spec c sep) as [->|_]; [tauto|].
    rewrite IH; tauto.
Qed.

Lemma split_concat (fs : list string) :
  fs <> [] -> Forall no_star fs ->
  Py.split "*" (String.concat "*" fs) = fs.
Proof.
  induction fs as [|f fs IH]; intros Hne Hall; [congruence|].
  inversion Hall as [|? ? Hf Hfs]; subst.
  destruct fs as [|g fs]; simpl.
  - now apply split_no_sep.
  - change (f ++ String "*" (String.concat "*" (g :: fs)))
      with (f ++ String "*"%char (String.concat "*" (g :: fs))).
    rewrite split_app_sep by exact Hf. f_equal. apply IH; [discriminate|assumption].
Qed.

Lemma stars_app (a b : list string) : stars (a ++ b) = stars a ++ stars b.
Proof.
  induction a as [|g a IH]; simpl; [reflexivity|].
  now rewrite IH, !app_assoc.
Qed.

Lemma stars_concat (gs : list string) :
  gs <> [] -> stars gs = String.concat "*" gs ++ "*".
Proof.
  induction gs as [|g gs IH]; intros Hne; [congruence|].
  destruct gs as [|h gs].
  - simpl. reflexivity.
  - change (stars (g :: h :: gs)) with (g ++ "*" ++ stars (h :: gs)).
    rewrite IH by discriminate.
    change (String.concat "*" (g :: h :: gs))
      with (g ++ "*" ++ String.concat "*" (h :: gs)).
    now rewrite !app_assoc.
Qed.

Lemma foldM_app {A B : Type} (f : A -> B -> res A) (l1 l2 : list B) (a : A) :
  foldM f (l1 ++ l2)%list a = (a' <- foldM f l1 a ;; foldM f l2 a').
Proof.
  revert a; induction l1 as [|b l1 IH]; intros a; simpl; [reflexivity|].
  destruct (f a b); simpl; auto.
Qed.

Lemma plain_not_power (f : string) : plain f -> is_power f = false.
Proof.
  intros Hp. unfold is_power.
  destruct (3 <=? String.length f)%nat eqn:L; [|reflexivity]. simpl.
  destruct (Py.last (Py.drop_last f)) as [c|] eqn:E; [|reflexivity].
  destruct (Ascii.eqb_spec c "^") as [->|]; [|reflexivity].
  exfalso. apply Nat.leb_le in L. destruct Hp as [Hlt|Hno]; [lia|].
  destruct (Py.last f) as [d|] eqn:Ed.
  - apply snoc_of_last in Ed. apply snoc_of_last in E.
    apply (Hno (Py.drop_last (Py.drop_last f)) d).
    rewrite Ed at 1. rewrite E at 1. now rewrite app_assoc.
  - destruct f as [|a f]; [simpl in L; lia|].
    clear - Ed. induction f as [|b f IH] in a, Ed |- *; [discriminate|].
    apply (IH b). exact Ed.
Qed.

Lemma foldM_plain (gs : list string) (acc : string) :
  Forall plain gs -> foldM expandPower_step gs acc = Ok (acc ++ stars gs).
Proof.
  revert acc; induction gs as [|g gs IH]; intros acc H; simpl.
  - now rewrite app_nil_r.
  - inversion H as [|? ? Hg Hgs]; subst.
    unfold expandPower_step at 1. rewrite (plain_not_power _ Hg). simpl.
    rewrite IH by assumption. now rewrite !app_assoc.
Qed.

Lemma repeat_var_stars (v : string) (n : nat) (acc : string) :
  repeat_var v n acc ++ "*" = acc ++ "*" ++ stars (repeat v n).
Proof.
  revert acc; induction n as [|n IH]; intros acc; simpl; [reflexivity|].
  rewrite IH. now rewrite !app_assoc.
Qed.

Lemma digit_cases (k : nat) :
  1 <= k <= 9 ->
  Py.int_of_char (ascii_of_nat (48 + k)) = Ok k /\ ascii_of_nat (48 + k) <> "*"%char.
Proof.
  intros H.
  assert (C : k = 1 \/ k = 2 \/ k = 3 \/ k = 4 \/ k = 5 \/ k = 6 \/ k = 7 \/
              k = 8 \/ k = 9) by lia.
  repeat (destruct C as [->|C]; [split; [reflexivity|discriminate]|]).
  subst k. split; [reflexivity|discriminate].
Qed.

Lemma length_power (v : string) (k : nat) :
  String.length (power v k) = String.length v + 2.
Proof. unfold power, digit. now rewrite !length_app. Qed.

Lemma expandPower_step_power (acc v : string) (k : nat) :
  v <> "" -> 1 <= k <= 9 ->
  expandPower_step acc (power v k) = Ok (acc ++ stars (repeat v k)).
Proof.
  intros Hv Hk. unfold expandPower_step, is_power.
  assert (E : power v k = (v ++ "^") ++ String (ascii_of_nat (48 + k)) "")
    by (unfold power, digit; now rewrite app_assoc).
  rewrite length_power.
  replace (3 <=? String.length v + 2)%nat with true
    by (symmetry; apply Nat.leb_le; destruct v; [congruence|simpl; lia]).
  rewrite E, drop_last_snoc, last_snoc.
  change (v ++ "^") with (v ++ String "^"%char "").
  rewrite drop_last_snoc, last_snoc.
  cbn [andb]. rewrite Ascii.eqb_refl.
  destruct (digit_cases k Hk) as [-> _]. cbn [bind].
  destruct k as [|k]; [lia|]. cbn [Nat.sub repeat stars]. rewrite Nat.sub_0_r.
  now rewrite repeat_var_stars.
Qed.

Lemma list_ascii_app (a b : string) :
  list_ascii_of_string (a ++ b) = (list_ascii_of_string a ++ list_ascii_of_string b)%list.
Proof. induction a as [|c a IH]; simpl; congruence. Qed.

Lemma no_star_power (v : string) (k : nat) :
  1 <= k <= 9 -> no_star v -> no_star (power v k).
Proof.
  intros Hk Hv. unfold no_star, power, digit.
  rewrite list_ascii_app, in_app_iff. simpl.
  destruct (digit_cases k Hk) as [_ Hd].
  intros [H|[H|[H|[]]]]; [now apply Hv|discriminate|exact (Hd H)].
Qed.

(** [expandPower] on a term whose factors the loop rewrites into [gs]. *)
Lemma expandPower_term (neg : bool) (fs gs : list string) :
  Forall no_star fs -> fs <> [] -> (neg = false -> unsigned_head fs) ->
  gs <> [] ->
  (forall acc, foldM expandPower_step fs acc = Ok (acc ++ stars gs)) ->
  expandPower (term neg fs) = Ok (term neg gs).
Proof.
  intros Hstar Hfs Hhead Hgs Hloop.
  assert (Hsplit : Py.split "*" (String.concat "*" fs) = fs)
    by now apply split_concat.
  unfold expandPower, term. destruct neg.
  - destruct fs as [|f0 fs']; [congruence|].
    change ("-" ++ String.concat "*" (f0 :: fs'))
      with (String "-"%char (String.concat "*" (f0 :: fs'))).
    cbn [Py.split]. rewrite Hsplit.
    change (Ascii.eqb "-" "*") with false. cbv iota.
    cbn [Py.first Py.tail]. rewrite Ascii.eqb_refl.
    rewrite Hloop. cbn [bind]. f_equal.
    rewrite stars_concat by assumption.
    change "*" with (String "*"%char "").
    now rewrite <- !app_assoc, drop_last_snoc.
  - specialize (Hhead eq_refl).
    destruct fs as [|f0 fs']; [contradiction|].
    destruct Hhead as (c & r & -> & Hc).
    change ("" ++ String.concat "*" (String c r :: fs'))
      with (String.concat "*" (String c r :: fs')).
    rewrite Hsplit. cbn [Py.first].
    apply Ascii.eqb_neq in Hc. rewrite Hc.
    rewrite Hloop. cbn [bind]. f_equal.
    rewrite stars_concat by assumption.
    change "*" with (String "*"%char "").
    now rewrite <- !app_assoc, drop_last_snoc.
Qed.

(** C7: in a term made of an optional minus sign and star-separated factors,
    one of which is [v^k] with [k] a digit from 1 to 9 and all others plain
    (shorter than three characters, or without a caret before the last
    character), [expandPower] puts [k] copies of [v] joined by stars in place
    of [v^k], leaves the plain factors as they are and puts the sign back in
    front. A term without sign starts with a factor that is not empty and
    has no minus sign of its own. *)
Theorem expandPower_single_power (neg : bool) (pre post : list string)
    (v : string) (k : nat) :
  1 <= k <= 9 -> v <> "" -> no_star v ->
  Forall no_star (pre ++ post) -> Forall plain (pre ++ post) ->
  (neg = false -> unsigned_head (pre ++ [power v k])) ->
  expandPower (term neg (pre ++ power v k :: post))
  = Ok (term neg (pre ++ repeat v k ++ post)).
Proof.
  intros Hk Hv Hvs Hstar Hplain Hhead.
  apply Forall_app in Hstar as [Hs1 Hs2].
  apply Forall_app in Hplain as [Hp1 Hp2].
  apply expandPower_term.
  - apply Forall_app. split; [assumption|].
    constructor; [now apply no_star_power | assumption].
  - now destruct pre.
  - intros Hneg. specialize (Hhead Hneg). destruct pre; exact Hhead.
  - destruct k; [lia|]. now destruct pre.
  - intros acc.
    rewrite foldM_app, (foldM_plain _ _ Hp1). cbn [bind foldM].
    rewrite (expandPower_step_power _ _ _ Hv Hk). cbn [bind].
    rewrite (foldM_plain _ _ Hp2).
    now rewrite !stars_app, !app_assoc.
Qed.

Lemma expandPower_single_power_witness :
  expandPower "-x^3*y" = Ok "-x*x*x*y" /\ expandPower "a*x^2" = Ok "a*x*x".
Proof.
  split.
  - apply (expandPower_single_power true [] ["y"] "x" 3).
    + lia.
    + discriminate.
    + unfold no_star. simpl. intros [H|[]]. discriminate.
    + simpl. constructor; [|constructor].
      unfold no_star. simpl. intros [H|[]]. discriminate.
    + simpl. constructor; [|constructor]. left. simpl. lia.
    + discriminate.
  - apply (expandPower_single_power false ["a"] [] "x" 2).
    + lia.
    + discriminate.
    + unfold no_star. simpl. intros [H|[]]. discriminate.
    + simpl. constructor; [|constructor].
      unfold no_star. simpl. intros [H|[]]. discriminate.
    + simpl. constructor; [|constructor]. left. simpl. lia.
    + intros _. simpl. exists "a"%char, "". split; [reflexivity|discriminate].
Defined.

(** ** The simplifier *)

Lemma fold_best_keep (l : list (string * nat)) (k : string) (n : nat) :
  (forall k' n', In (k', n') l -> n' <= n) ->
  fold_left best_step l (k, n) = (k, n).
Proof.
  induction l as [|[k' n'] l IH]; intros H; simpl; [reflexivity|].
  assert (Hn : n' <= n) by (apply (H k'); now left).
  apply Nat.ltb_ge in Hn. rewrite Hn.
  apply IH. intros; eapply H; right; eassumption.
Qed.

Lemma fold_best_unique (l : list (string * nat)) (k b : string) (n c : nat) :
  In (k, n) l -> c < n ->
  (forall k' n', In (k', n') l -> (k', n') = (k, n) \/ n' < n) ->
  fold_left best_step l (b, c) = (k, n).
Proof.
  revert b c; induction l as [|[k' n'] l IH]; intros b c Hin Hc Hall; [contradiction|].
  simpl.
  destruct (Hall k' n' (or_introl eq_refl)) as [E|Hlt].
  - injection E as -> ->. apply Nat.ltb_lt in Hc. rewrite Hc.
    apply fold_best_keep. intros k' n' H'.
    destruct (Hall k' n' (or_intror H')) as [E|?]; [injection E as _ ->|]; lia.
  - destruct Hin as [E|Hin]; [injection E as _ ->; lia|].
    assert (Hall' : forall k0 n0, In (k0, n0) l -> (k0, n0) = (k, n) \/ n0 < n)
      by (intros; apply Hall; now right).
    destruct (c <? n')%nat; apply IH; assumption.
Qed.

Section SimplifierFacts.

Variable items : dict -> list (string * nat).

(** Whatever its order, [dict.items()] lists the entries of the dictionary. *)
Hypothesis items_perm : forall d, Permutation (items d) d.

Lemma simplifyExpanded_eq (fuel : nat) (input : string) :
  simplifyExpanded items (S fuel) input
  = if Py.is_empty input then Ok ""
    else emit (simplifyExpanded items fuel) (terms input)
              (best_var items (count_vars (terms input))).
Proof. reflexivity. Qed.

Lemma best_var_unique (d : dict) (k : string) (n : nat) :
  In (k, n) d -> 0 < n ->
  (forall k' n', In (k', n') d -> (k', n') = (k, n) \/ n' < n) ->
  best_var items d = k.
Proof.
  intros Hin Hn Hall. unfold best_var.
  rewrite (fold_best_unique (items d) k "" n 0); [reflexivity| |assumption|].
  - eapply Permutation_in; [apply Permutation_sym, items_perm | exact Hin].
  - intros k' n' H'. apply Hall.
    eapply Permutation_in; [apply items_perm | exact H'].
Qed.

Lemma best_var_empty : best_var items [] = "".
Proof.
  unfold best_var.
  now rewrite (Permutation_nil (Permutation_sym (items_perm []))).
Qed.

(** On "12" the body calls itself on "12". *)
Lemma emit_12 (self : string -> res string) :
  emit self (terms "12") (best_var items (count_vars (terms "12")))
  = (inner <- self "12" ;; Ok ("12*( " ++ inner ++ " )")).
Proof.
  change (terms "12") with ["12"].
  change (count_vars ["12"]) with [("12", 1)].
  rewrite (best_var_unique _ "12" 1); [reflexivity|now left|lia|].
  intros k' n' [E|[]]. now left.
Qed.

Lemma simplifyExpanded_12 (fuel : nat) : simplifyExpanded items fuel "12" = NoFuel.
Proof.
  induction fuel as [|fuel IH]; [reflexivity|].
  rewrite simplifyExpanded_eq. cbn [Py.is_empty]. cbv iota.
  now rewrite emit_12, IH.
Qed.

(** C9: on the input "12" the chosen factor is the whole term "12", none of
    the three patterns of [removeVariable] occurs in it, so the term comes
    back unchanged; the factor starts with a digit, the bracket is computed by
    a recursive call on "12" again, and no recursion budget ever yields a
    result. *)
Theorem simplifyExpanded_12_diverges :
  best_var items (count_vars (terms "12")) = "12"
  /\ Py.find "12" "*12*" = None /\ Py.find "12" "12*" = None
  /\ Py.find "12" "*12" = None
  /\ removeVariable "12" "12" = Ok "12"
  /\ reconstruct ["12"] = Ok "12"
  /\ (forall self, emit self (terms "12") "12"
                   = (inner <- self "12" ;; Ok ("12*( " ++ inner ++ " )")))
  /\ forall fuel, simplifyExpanded items fuel "12" = NoFuel.
Proof.
  split.
  { change (count_vars (terms "12")) with [("12", 1)].
    apply (best_var_unique _ "12" 1); [now left|lia|].
    intros k' n' [E|[]]. now left. }
  repeat (split; [reflexivity|]).
  apply simplifyExpanded_12.
Qed.

(** C3, at the input "12": the recursive call receives the very term list of
    its caller, not a smaller one, and the call never returns, whatever the
    recursion budget. *)
Theorem simplifyExpanded_recursion_not_decreasing :
  (forall self,
      emit self (terms "12") (best_var items (count_vars (terms "12")))
      = (inner <- self "12" ;; Ok ("12*( " ++ inner ++ " )")))
  /\ terms "12" = ["12"]
  /\ forall fuel out, simplifyExpanded items fuel "12" <> Ok out.
Proof.
  split; [exact emit_12|]. split; [reflexivity|].
  intros fuel out. rewrite simplifyExpanded_12. discriminate.
Qed.

(** C10: when every block of a non-empty input has at most one character,
    the length filter leaves no term, the frequency dictionary is empty, the
    chosen factor is the empty string, and reading its first character raises
    IndexError: no string is returned. *)
Theorem simplifyExpanded_short_terms (input : string) (fuel : nat) :
  input <> "" ->
  (forall w, In w (blocks input) -> String.length w <= 1) ->
  terms input = []
  /\ count_vars (terms input) = []
  /\ best_var items (count_vars (terms input)) = ""
  /\ simplifyExpanded items (S fuel) input = Raise IndexError.
Proof.
  intros Hne Hshort.
  assert (T : terms input = []).
  { unfold terms. apply filter_none. intros w Hw.
    apply Nat.ltb_ge. now apply Hshort. }
  rewrite simplifyExpanded_eq, T.
  change (count_vars []) with ([] : dict). rewrite best_var_empty.
  destruct input; [congruence|]. repeat split; reflexivity.
Qed.

(** C1, at the input "a*b a*c d": the term "d" has one character, the length
    filter drops it, and the returned string "a*( b + c )" does not mention
    d any more. *)
Theorem simplifyExpanded_drops_short_term (fuel : nat) :
  simplifyExpanded items (S fuel) "a*b a*c d" = Ok "a*( b + c )"
  /\ ~ occurs "d" "a*( b + c )".
Proof.
  split.
  - rewrite simplifyExpanded_eq. cbn [Py.is_empty]. cbv iota.
    change (terms "a*b a*c d") with ["a*b"; "a*c"].
    change (count_vars ["a*b"; "a*c"]) with [("a", 2); ("b", 1); ("c", 1)].
    rewrite (best_var_unique _ "a" 2); [reflexivity|now left|lia|].
    intros k' n' [E|[E|[E|[]]]]; injection E as <- <-; auto.
  - intros H. apply contains_occurs in H. discriminate.
Qed.

(** The same loss on a string that [extractVarEq] produces: the constant 1
    of "1 + a*b + a*c" disappears. *)
Lemma simplifyExpanded_drops_constant (fuel : nat) :
  extractVarEq (fun e : string => e) "x + a*b*x + a*c*x" "x" = Ok "1 + a*b + a*c"
  /\ simplifyExpanded items (S fuel) "1 + a*b + a*c" = Ok "a*( b + c )".
Proof.
  split; [reflexivity|].
  rewrite simplifyExpanded_eq. cbn [Py.is_empty]. cbv iota.
  change (terms "1 + a*b + a*c") with ["a*b"; "a*c"].
  change (count_vars ["a*b"; "a*c"]) with [("a", 2); ("b", 1); ("c", 1)].
  rewrite (best_var_unique _ "a" 2); [reflexivity|now left|lia|].
  intros k' n' [E|[E|[E|[]]]]; injection E as <- <-; auto.
Qed.

(** C5, amended: a call that returns has emitted the chosen factor, "*( ",
    a bracket and " )". When the first character of the factor is not a
    digit, the bracket is the include terms after removal of the factor,
    joined by [reconstruct] and not simplified any further; when it is a
    digit, the bracket is the recursive simplification of that same joined
    text. The include group before removal is never simplified. *)
Theorem simplifyExpanded_bracket (fuel : nat) (input out : string) :
  input <> "" ->
  simplifyExpanded items (S fuel) input = Ok out ->
  let bestVar := best_var items (count_vars (terms input)) in
  exists include c inner rest,
    mapM (fun w => removeVariable w bestVar)
         (filter (fun w => Py.contains w bestVar) (terms input)) = Ok include
    /\ Py.first bestVar = Some c
    /\ (if Py.isdigit c
        then exists r, reconstruct include = Ok r
                       /\ simplifyExpanded items fuel r = Ok inner
        else reconstruct include = Ok inner)
    /\ out = bestVar ++ "*( " ++ inner ++ " )" ++ rest.
Proof.
  intros Hne H bestVar. rewrite simplifyExpanded_eq in H.
  destruct input as [|a input]; [congruence|]. cbn [Py.is_empty] in H. cbv iota in H.
  unfold emit in H. fold bestVar in H.
  destruct (mapM _ _) as [include| |] eqn:Hinc; cbn [bind] in H; try discriminate.
  destruct (Py.first bestVar) as [c|] eqn:Hc; try discriminate.
  exists include, c.
  assert (Hinner : exists inner,
    (if Py.isdigit c
     then r <- reconstruct include ;; simplifyExpanded items fuel r
     else reconstruct include) = Ok inner).
  { destruct (if Py.isdigit c then _ else _) as [inner| |]; try discriminate.
    now exists inner. }
  destruct Hinner as [inner Hinner]. rewrite Hinner in H. cbn [bind] in H.
  assert (Hbr : if Py.isdigit c
                then exists r, reconstruct include = Ok r
                               /\ simplifyExpanded items fuel r = Ok inner
                else reconstruct include = Ok inner).
  { destruct (Py.isdigit c); [|exact Hinner].
    destruct (reconstruct include) as [r| |]; try discriminate.
    now exists r. }
  destruct (negb _).
  - destruct (reconstruct _) as [r| |]; cbn [bind] in H; try discriminate.
    destruct (simplifyExpanded items fuel r) as [rest| |]; cbn [bind] in H;
      try discriminate.
    injection H as <-. exists inner, (" + " ++ rest).
    repeat split; try assumption. now rewrite !app_assoc.
  - injection H as <-. exists inner, "".
    repeat split; try assumption. now rewrite !app_assoc.
Qed.

(** With a count of three, a is the factor of "a*b*c a*b*d a*e" in every
    iteration order, and the bracket is the joined text as it is. *)
Remark simplifyExpanded_bracket_any_order (fuel : nat) :
  simplifyExpanded items (S fuel) "a*b*c a*b*d a*e" = Ok "a*( b*c + b*d + e )".
Proof.
  rewrite simplifyExpanded_eq. cbn [Py.is_empty]. cbv iota.
  change (terms "a*b*c a*b*d a*e") with ["a*b*c"; "a*b*d"; "a*e"].
  change (count_vars ["a*b*c"; "a*b*d"; "a*e"])
    with [("a", 3); ("b", 2); ("c", 1); ("d", 1); ("e", 1)].
  rewrite (best_var_unique _ "a" 3); [reflexivity|now left|lia|].
  intros k' n' [E|[E|[E|[E|[E|[]]]]]]; injection E as <- <-; auto.
Qed.

End SimplifierFacts.

Lemma simplifyExpanded_short_terms_witness :
  terms "a b" = []
  /\ count_vars (terms "a b") = []
  /\ best_var insertion_order (count_vars (terms "a b")) = ""
  /\ simplifyExpanded insertion_order 1 "a b" = Raise IndexError.
Proof.
  apply (simplifyExpanded_short_terms insertion_order
           (fun d => Permutation_refl d) "a b" 0).
  - discriminate.
  - intros w Hw. vm_compute in Hw.
    repeat (destruct Hw as [<-|Hw]; [simpl; lia|]). contradiction.
Defined.

(** The blocks are those of the text after ['- '] was glued into ['-']: in
    "- a" the two pieces around the space have one character each, yet the
    only block is "-a", which passes the length filter. *)
Remark simplifyExpanded_glued_sign :
  blocks "- a" = ["-a"]
  /\ simplifyExpanded insertion_order 1 "- a" = Ok "a*( -a )".
Proof. split; reflexivity. Qed.

Lemma simplifyExpanded_12_diverges_witness :
  best_var insertion_order (count_vars (terms "12")) = "12"
  /\ Py.find "12" "*12*" = None /\ Py.find "12" "12*" = None
  /\ Py.find "12" "*12" = None
  /\ removeVariable "12" "12" = Ok "12"
  /\ reconstruct ["12"] = Ok "12"
  /\ (forall self, emit self (terms "12") "12"
                   = (inner <- self "12" ;; Ok ("12*( " ++ inner ++ " )")))
  /\ forall fuel, simplifyExpanded insertion_order fuel "12" = NoFuel.
Proof.
  apply (simplifyExpanded_12_diverges insertion_order (fun d => Permutation_refl d)).
Defined.

Lemma simplifyExpanded_recursion_not_decreasing_witness :
  (forall self,
      emit self (terms "12") (best_var insertion_order (count_vars (terms "12")))
      = (inner <- self "12" ;; Ok ("12*( " ++ inner ++ " )")))
  /\ terms "12" = ["12"]
  /\ forall fuel out, simplifyExpanded insertion_order fuel "12" <> Ok out.
Proof.
  apply (simplifyExpanded_recursion_not_decreasing insertion_order
           (fun d => Permutation_refl d)).
Defined.

Lemma simplifyExpanded_drops_short_term_witness :
  simplifyExpanded insertion_order 1 "a*b a*c d" = Ok "a*( b + c )"
  /\ ~ occurs "d" "a*( b + c )".
Proof.
  apply (simplifyExpanded_drops_short_term insertion_order
           (fun d => Permutation_refl d) 0).
Defined.

Lemma simplifyExpanded_bracket_witness :
  let bestVar := best_var insertion_order (count_vars (terms "2*a*b 2*a*c")) in
  exists include c inner rest,
    mapM (fun w => removeVariable w bestVar)
         (filter (fun w => Py.contains w bestVar) (terms "2*a*b 2*a*c")) = Ok include
    /\ Py.first bestVar = Some c
    /\ (if Py.isdigit c
        then exists r, reconstruct include = Ok r
                       /\ simplifyExpanded insertion_order 1 r = Ok inner
        else reconstruct include = Ok inner)
    /\ "2*( a*( b + c ) )" = bestVar ++ "*( " ++ inner ++ " )" ++ rest.
Proof.
  apply (simplifyExpanded_bracket insertion_order 1 "2*a*b 2*a*c" "2*( a*( b + c ) )").
  - discriminate.
  - reflexivity.
Defined.

(** C5, as stated, fails: for "a*b*c a*b*d a*e" the factor is a, the include
    terms after removal join to "b*c + b*d + e", and that text is emitted in
    the bracket as it is, although its recursive simplification is
    "b*( c + d )". *)
Lemma simplifyExpanded_bracket_not_simplified :
  simplifyExpanded insertion_order 2 "a*b*c a*b*d a*e" = Ok "a*( b*c + b*d + e )"
  /\ mapM (fun w => removeVariable w "a") ["a*b*c"; "a*b*d"; "a*e"]
     = Ok ["b*c"; "b*d"; "e"]
  /\ reconstruct ["b*c"; "b*d"; "e"] = Ok "b*c + b*d + e"
  /\ simplifyExpanded insertion_order 2 "b*c + b*d + e" = Ok "b*( c + d )"
  /\ simplifyExpanded insertion_order 2 "a*b*c a*b*d a*e"
     <> Ok ("a" ++ "*( " ++ "b*( c + d )" ++ " )").
Proof. repeat (split; [reflexivity|]). discriminate. Qed.

(** * Further properties *)

(** ** More on the power expander *)

Lemma digit_le9 (k : nat) :
  k <= 9 ->
  Py.int_of_char (ascii_of_nat (48 + k)) = Ok k /\ ascii_of_nat (48 + k) <> "*"%char.
Proof.
  intros H. destruct k as [|k]; [split; [reflexivity|discriminate]|].
  apply digit_cases. lia.
Qed.

Lemma expandPower_step_any_power (acc v : string) (k : nat) :
  v <> "" -> k <= 9 ->
  expandPower_step acc (power v k) = Ok (acc ++ stars (repeat v (Nat.max 1 k))).
Proof.
  intros Hv Hk. destruct k as [|k].
  - unfold expandPower_step, is_power.
    assert (E : power v 0 = (v ++ "^") ++ String (ascii_of_nat (48 + 0)) "")
      by (unfold power, digit; now rewrite app_assoc).
    rewrite length_power.
    replace (3 <=? String.length v + 2)%nat with true
      by (symmetry; apply Nat.leb_le; destruct v; [congruence|simpl; lia]).
    rewrite E, drop_last_snoc, last_snoc.
    change (v ++ "^") with (v ++ String "^"%char "").
    rewrite drop_last_snoc, last_snoc.
    cbn [andb]. rewrite Ascii.eqb_refl.
    change (Py.int_of_char (ascii_of_nat (48 + 0))) with (Ok (A:=nat) 0).
    cbn [bind Nat.sub repeat_var Nat.max repeat stars]. reflexivity.
  - replace (Nat.max 1 (S k)) with (S k) by lia.
    apply expandPower_step_power; [assumption|lia].
Qed.

Lemma no_star_any_power (v : string) (k : nat) :
  k <= 9 -> no_star v -> no_star (power v k).
Proof.
  intros Hk Hv. destruct k as [|k]; [|apply no_star_power; [lia|assumption]].
  unfold no_star, power, digit. rewrite list_ascii_app, in_app_iff. simpl.
  intros [H|[H|[H|[]]]]; [now apply Hv|discriminate|discriminate].
Qed.

Lemma foldM_factors (fs : list factor) (acc : string) :
  Forall factor_ok fs ->
  foldM expandPower_step (map factor_text fs) acc
  = Ok (acc ++ stars (flat_map factor_expansion fs)).
Proof.
  revert acc; induction fs as [|f fs IH]; intros acc H; simpl.
  - now rewrite app_nil_r.
  - inversion H as [|? ? Hf Hfs]; subst.
    destruct f as [f|v k]; simpl in Hf |- *.
    + destruct Hf as [_ Hp]. unfold expandPower_step at 1.
      rewrite (plain_not_power _ Hp). cbn [bind].
      rewrite IH by assumption. now rewrite !app_assoc.
    + destruct Hf as (Hv & _ & Hk).
      rewrite expandPower_step_any_power by assumption. cbn [bind].
      rewrite IH by assumption. now rewrite stars_app, !app_assoc.
Qed.

(** X1: in a term of star-separated factors, every factor [v^k] with a digit
    [k] becomes [k] copies of [v] joined by stars, a single copy when [k] is
    0, and the plain factors and the sign stay as they are, however many
    powers the term holds. *)
Theorem expandPower_factors (neg : bool) (fs : list factor) :
  fs <> [] -> Forall factor_ok fs ->
  (neg = false -> unsigned_head (map factor_text fs)) ->
  expandPower (term neg (map factor_text fs))
  = Ok (term neg (flat_map factor_expansion fs)).
Proof.
  intros Hne Hok Hhead. apply expandPower_term.
  - apply Forall_map. eapply Forall_impl; [|exact Hok].
    intros [f|v k]; simpl; [tauto|]. intros (Hv & Hs & Hk).
    now apply no_star_any_power.
  - now destruct fs.
  - exact Hhead.
  - destruct fs as [|[f|v k] fs]; [congruence|simpl; discriminate|].
    destruct k; simpl; discriminate.
  - intros acc. now apply foldM_factors.
Qed.

Lemma expandPower_factors_witness :
  expandPower "-a^2*7*b^0*c^3" = Ok "-a*a*7*b*c*c*c".
Proof.
  apply (expandPower_factors true [Power "a" 2; Plain "7"; Power "b" 0; Power "c" 3]).
  - discriminate.
  - repeat (apply Forall_cons || apply Forall_nil); simpl;
      unfold no_star, plain; simpl;
      repeat split; try discriminate; try lia; try (left; lia);
      intros H; repeat (destruct H as [H|H]; [discriminate|]); exact H.
  - discriminate.
Defined.

Lemma split_nonempty (sep : ascii) (s : string) : Py.split sep s <> [].
Proof.
  induction s as [|c s IH]; simpl; [discriminate|].
  destruct (Ascii.eqb c sep); [discriminate|].
  destruct (Py.split sep s); [congruence|discriminate].
Qed.

(** Joining the pieces of a split with the separator gives the text back. *)
Lemma concat_split (sep : ascii) (s : string) :
  String.concat (String sep "") (Py.split sep s) = s.
Proof.
  induction s as [|c s IH]; [reflexivity|].
  pose proof (split_nonempty sep s) as Hne. simpl.
  destruct (Ascii.eqb_spec c sep) as [->|Hc].
  - destruct (Py.split sep s) as [|w ws]; [congruence|].
    change (String.concat (String sep "") ("" :: w :: ws))
      with (String sep (String.concat (String sep "") (w :: ws))).
    now rewrite IH.
  - destruct (Py.split sep s) as [|w ws]; [congruence|].
    rewrite <- IH. destruct ws; reflexivity.
Qed.

Lemma split_chars (sep : ascii) (s w : string) (c : ascii) :
  In w (Py.split sep s) -> In c (chars w) -> In c (chars s).
Proof.
  revert w; induction s as [|a s IH]; intros w Hw Hc; simpl in Hw.
  - destruct Hw as [<-|[]]. exact Hc.
  - pose proof (split_nonempty sep s) as Hne.
    destruct (Ascii.eqb a sep).
    + destruct Hw as [<-|Hw]; [destruct Hc|]. right. now apply (IH w).
    + destruct (Py.split sep s) as [|w0 ws]; [congruence|].
      destruct Hw as [<-|Hw].
      * destruct Hc as [<-|Hc]; [now left|]. right. apply (IH w0); [now left|exact Hc].
      * right. apply (IH w); [now right|exact Hc].
Qed.

Lemma chars_app (a b : string) : chars (a ++ b) = (chars a ++ chars b)%list.
Proof. apply list_ascii_app. Qed.

Lemma no_caret_plain (f : string) : ~ In "^"%char (chars f) -> plain f.
Proof.
  intros H. right. intros p d E. apply H. rewrite E, chars_app, in_app_iff.
  right. now left.
Qed.

Lemma split_cons (c : ascii) (r : string) :
  c <> "*"%char ->
  exists w ws, Py.split "*" r = w :: ws /\ Py.split "*" (String c r) = String c w :: ws.
Proof.
  intros Hc. pose proof (split_nonempty "*" r) as Hne.
  destruct (Py.split "*" r) as [|w ws] eqn:E; [congruence|].
  exists w, ws. split; [reflexivity|].
  simpl. apply Ascii.eqb_neq in Hc. now rewrite Hc, E.
Qed.

Lemma drop_last_stars (sign : string) (gs : list string) :
  gs <> [] -> Py.drop_last (sign ++ stars gs) = sign ++ String.concat "*" gs.
Proof.
  intros Hgs. rewrite stars_concat by assumption.
  change "*" with (String "*"%char "").
  now rewrite <- !app_assoc, drop_last_snoc.
Qed.

(** X2: a term in which no caret appears, and which is neither empty nor
    headed by a star, comes out of [expandPower] as it went in. *)
Theorem expandPower_without_caret (e : string) :
  ~ In "^"%char (chars e) ->
  (exists c r, e = String c r /\ c <> "*"%char) ->
  expandPower e = Ok e.
Proof.
  intros Hcaret (c & r & -> & Hc).
  destruct (split_cons c r Hc) as (w & ws & Hr & He).
  assert (Hplain : forall g, In g (w :: ws) -> plain g).
  { intros g Hg. apply no_caret_plain. intros Hin. apply Hcaret.
    right. apply (split_chars "*" r g); [now rewrite Hr|exact Hin]. }
  unfold expandPower. rewrite He. cbn [Py.first].
  destruct (Ascii.eqb_spec c "-") as [->|Hm].
  - cbn [Py.tail]. rewrite foldM_plain by now apply Forall_forall.
    cbn [bind]. rewrite drop_last_stars by discriminate.
    rewrite <- Hr, concat_split. reflexivity.
  - rewrite foldM_plain.
    + cbn [bind]. rewrite drop_last_stars by discriminate.
      rewrite <- He, concat_split. reflexivity.
    + constructor.
      * apply no_caret_plain. intros Hin. apply Hcaret.
        apply (split_chars "*" (String c r) (String c w)); [rewrite He; now left|exact Hin].
      * apply Forall_forall. intros g Hg. apply Hplain. now right.
Qed.

Lemma expandPower_without_caret_witness : expandPower "-a01*b**c*" = Ok "-a01*b**c*".
Proof.
  apply expandPower_without_caret.
  - simpl. intros H. repeat (destruct H as [H|H]; [discriminate|]). exact H.
  - exists "-"%char, "a01*b**c*". split; [reflexivity|discriminate].
Defined.

Lemma length_ge3_last (s : string) : 3 <= String.length s -> Py.last s <> None.
Proof.
  destruct s as [|a s]; simpl; [lia|]. intros _.
  revert a; induction s as [|b s IH]; intros a; [discriminate|]. apply (IH b).
Qed.

Lemma expandPower_step_cases (acc s : string) :
  (exists r, expandPower_step acc s = Ok r) \/ expandPower_step acc s = Raise ValueError.
Proof.
  unfold expandPower_step. destruct (is_power s) eqn:P; [|left; eauto].
  apply andb_true_iff in P as [L _]. apply Nat.leb_le in L.
  destruct (Py.last s) as [d|] eqn:E; [|now apply length_ge3_last in L].
  unfold Py.int_of_char. destruct (Py.isdigit d); cbn [bind]; [left; eauto|now right].
Qed.

Lemma foldM_step_cases (l : list string) (acc : string) :
  (exists r, foldM expandPower_step l acc = Ok r)
  \/ foldM expandPower_step l acc = Raise ValueError.
Proof.
  revert acc; induction l as [|s l IH]; intros acc; simpl; [left; eauto|].
  destruct (expandPower_step_cases acc s) as [[r ->]| ->]; cbn [bind]; [apply IH|now right].
Qed.

Lemma expandPower_star (r : string) : expandPower (String "*" r) = Raise IndexError.
Proof. unfold expandPower. simpl. reflexivity. Qed.

(** X3: [expandPower] raises IndexError on the empty text and on a text that
    begins with a star, and on no other. *)
Theorem expandPower_IndexError (e : string) :
  expandPower e = Raise IndexError <-> e = "" \/ exists r, e = String "*" r.
Proof.
  split.
  - intros H. destruct e as [|c r]; [now left|].
    destruct (Ascii.eqb_spec c "*") as [->|Hc]; [right; eauto|].
    exfalso. destruct (split_cons c r Hc) as (w & ws & _ & He).
    unfold expandPower in H. rewrite He in H. cbn [Py.first] in H.
    destruct (Ascii.eqb c "-").
    + destruct (foldM_step_cases (Py.tail (String c w) :: ws) "-") as [[x Hx]|Hx];
        rewrite Hx in H; discriminate.
    + destruct (foldM_step_cases (String c w :: ws) "") as [[x Hx]|Hx];
        rewrite Hx in H; discriminate.
  - intros [->|[r ->]]; [reflexivity|apply expandPower_star].
Qed.

Lemma repeat_var_prefix (var : string) (n : nat) (acc : string) :
  exists t, repeat_var var n acc = acc ++ t.
Proof.
  revert acc; induction n as [|n IH]; intros acc; cbn [repeat_var].
  - exists "". now rewrite app_nil_r.
  - destruct (IH (acc ++ "*" ++ var)) as [t ->].
    exists ("*" ++ var ++ t). now rewrite !app_assoc.
Qed.

Lemma length_drop_last (s : string) :
  String.length (Py.drop_last s) = String.length s - 1.
Proof.
  induction s as [|a s IH]; [reflexivity|].
  destruct s as [|b s]; [reflexivity|].
  change (Py.drop_last (String a (String b s)))
    with (String a (Py.drop_last (String b s))).
  simpl String.length in *. rewrite IH. lia.
Qed.

Lemma first_drop_last (s : string) :
  2 <= String.length s -> Py.first (Py.drop_last s) = Py.first s.
Proof.
  destruct s as [|a [|b s]]; simpl; try lia. reflexivity.
Qed.

Lemma first_app (a b : string) : a <> "" -> Py.first (a ++ b) = Py.first a.
Proof. now destruct a. Qed.

Lemma expandPower_step_shape (acc s r : string) :
  expandPower_step acc s = Ok r ->
  exists piece, r = acc ++ piece ++ "*"
                /\ (s <> "" -> piece <> "" /\ Py.first piece = Py.first s).
Proof.
  unfold expandPower_step. destruct (is_power s) eqn:P.
  - apply andb_true_iff in P as [L _]. apply Nat.leb_le in L.
    destruct (Py.last s) as [d|]; [|discriminate].
    destruct (Py.int_of_char d) as [n| |]; cbn [bind]; try discriminate.
    intros [= <-].
    destruct (repeat_var_prefix (Py.drop_last (Py.drop_last s)) (n - 1)
                (Py.drop_last (Py.drop_last s))) as [t ->].
    exists (Py.drop_last (Py.drop_last s) ++ t). split; [reflexivity|].
    intros _.
    assert (L1 : 2 <= String.length (Py.drop_last s))
      by (rewrite length_drop_last; lia).
    assert (Hne : Py.drop_last (Py.drop_last s) <> "").
    { intros E. apply (f_equal String.length) in E.
      rewrite length_drop_last in E. simpl in E. lia. }
    split; [now destruct (Py.drop_last (Py.drop_last s))|].
    rewrite first_app by assumption.
    rewrite first_drop_last by assumption.
    apply first_drop_last. lia.
  - intros [= <-]. exists s. split; [reflexivity|]. intros H; now split.
Qed.

Lemma foldM_step_prefix (l : list string) (acc r : string) :
  foldM expandPower_step l acc = Ok r -> exists suf, r = acc ++ suf.
Proof.
  revert acc; induction l as [|s l IH]; intros acc; simpl.
  - intros [= <-]. exists "". now rewrite app_nil_r.
  - destruct (expandPower_step acc s) as [x| |] eqn:E; cbn [bind]; try discriminate.
    intros H. apply IH in H as [suf ->].
    apply expandPower_step_shape in E as (piece & -> & _).
    exists (piece ++ "*" ++ suf). now rewrite !app_assoc.
Qed.

Lemma expandPower_first (e r : string) :
  expandPower e = Ok r -> Py.first r = Py.first e /\ r <> "".
Proof.
  intros H.
  assert (Hfirst : Py.first r = Py.first e /\ Py.first e <> None);
    [|destruct Hfirst as [H1 H2]; split;
      [exact H1|intros ->; apply H2; now rewrite <- H1]].
  destruct e as [|c e]; [discriminate|].
  destruct (Ascii.eqb_spec c "*") as [->|Hc].
  { rewrite expandPower_star in H. discriminate. }
  destruct (split_cons c e Hc) as (w & ws & _ & He).
  unfold expandPower in H. rewrite He in H. cbn [Py.first] in H.
  split; [|discriminate]. cbn [Py.first].
  destruct (Ascii.eqb_spec c "-") as [->|Hm].
  - cbn [Py.tail foldM] in H.
    destruct (expandPower_step "-" w) as [x1| |] eqn:E1; cbn [bind] in H; try discriminate.
    destruct (foldM expandPower_step ws x1) as [x| |] eqn:E2; cbn [bind] in H; try discriminate.
    injection H as <-.
    apply expandPower_step_shape in E1 as (piece & -> & _).
    apply foldM_step_prefix in E2 as [suf ->].
    rewrite first_drop_last; [reflexivity|].
    rewrite !length_app. simpl. lia.
  - cbn [foldM] in H.
    destruct (expandPower_step "" (String c w)) as [x1| |] eqn:E1; cbn [bind] in H; try discriminate.
    destruct (foldM expandPower_step ws x1) as [x| |] eqn:E2; cbn [bind] in H; try discriminate.
    injection H as <-.
    apply expandPower_step_shape in E1 as (piece & -> & Hp).
    destruct Hp as [Hne Hf]; [discriminate|].
    apply foldM_step_prefix in E2 as [suf ->].
    rewrite first_drop_last.
    + cbn [append]. rewrite app_assoc, first_app by assumption. exact Hf.
    + cbn [append]. rewrite !length_app. simpl.
      destruct piece; [congruence|simpl; lia].
Qed.

(** X4: whatever [expandPower] returns is not empty and begins with the
    first character of its argument, a minus sign in particular. *)
Theorem expandPower_first_character (e r : string) :
  expandPower e = Ok r -> Py.first r = Py.first e /\ r <> "".
Proof. apply expandPower_first. Qed.

Lemma expandPower_first_character_witness :
  Py.first "-x*x*x*y^" = Py.first "-x^3*y^" /\ "-x*x*x*y^" <> "".
Proof. apply (expandPower_first_character "-x^3*y^" "-x*x*x*y^"). reflexivity. Defined.

(** ** More on the extractor *)

Lemma foldM_join_prefix (ws : list string) (acc r : string) :
  foldM join_step ws acc = Ok r -> exists suf, r = acc ++ suf.
Proof.
  revert acc; induction ws as [|w ws IH]; intros acc; simpl.
  - intros [= <-]. exists "". now rewrite app_nil_r.
  - unfold join_step at 1. destruct (Py.first w) as [c|]; [|discriminate].
    destruct (Ascii.eqb c "-"); cbn [bind]; intros H; apply IH in H as [suf ->];
      eexists; rewrite !app_assoc; reflexivity.
Qed.

Lemma assemble_empty (var : list string) : assemble var = Ok "" -> var = [].
Proof.
  destruct var as [|v vs]; [reflexivity|]. unfold assemble.
  cbn [List.length Nat.eqb map mapM].
  destruct (expandPower _) as [x0| |] eqn:E0; cbn [bind]; try discriminate.
  destruct (mapM _ _) as [xs| |]; cbn [bind]; try discriminate.
  intros H. apply foldM_join_prefix in H as [suf H].
  apply expandPower_first in E0 as [_ Hne].
  destruct x0; [congruence|discriminate].
Qed.

(** X5: for a non-empty key, [extractVarEq] returns the empty string only
    when no block of the expanded expression contains the key: a block that
    contains it always leaves something in the result. *)
Theorem extractVarEq_empty_result {E : Type} (expand : E -> string)
    (expression : E) (key : string) :
  key <> "" -> extractVarEq expand expression key = Ok "" ->
  Forall (fun w => ~ occurs key w) (blocks (expand expression)).
Proof.
  intros Hkey H. apply Forall_forall. intros w Hw Ho. apply assemble_empty in H.
  unfold select in H. destruct key as [|k key]; [congruence|]. cbn [Py.is_empty] in H.
  apply map_eq_nil in H.
  assert (Hin : In w (filter (fun w => Py.contains w (String k key))
                             (blocks (expand expression))))
    by (apply filter_In; split; [exact Hw|now apply contains_occurs]).
  rewrite H in Hin. destruct Hin.
Qed.

Lemma extractVarEq_empty_result_witness :
  Forall (fun w => ~ occurs "q" w) (blocks "a*b - c").
Proof.
  apply (extractVarEq_empty_result (fun e : string => e) "a*b - c" "q").
  - discriminate.
  - reflexivity.
Defined.

(** ** The terms of a reconstructed text *)

Lemma foldM_join (ws : list string) (acc : string) :
  Forall (fun w => w <> "") ws ->
  foldM join_step ws acc = Ok (acc ++ signed_sum ws).
Proof.
  revert acc; induction ws as [|w ws IH]; intros acc H; simpl.
  - now rewrite app_nil_r.
  - inversion H as [|? ? Hw Hws]; subst.
    unfold join_step at 1, signed. destruct w as [|c w]; [congruence|]. cbn [Py.first].
    destruct (Ascii.eqb c "-"); cbn [bind]; rewrite IH by assumption;
      now rewrite !app_assoc.
Qed.

Lemma replace_absent (old new w : string) :
  ~ occurs old w -> Py.replace old new w = w.
Proof.
  unfold Py.replace. induction w as [|c r IH]; intros H; [reflexivity|].
  cbn [Py.replace_from].
  destruct (Py.starts_with old (String c r)) eqn:E.
  - exfalso. apply H. apply starts_with_inv in E as [q E]. now exists "", q.
  - f_equal. apply IH. intros (p & q & Hpq). apply H.
    exists (String c p), q. simpl. now rewrite Hpq.
Qed.

Lemma occurs_chars (old w : string) (c : ascii) :
  occurs old w -> In c (chars old) -> In c (chars w).
Proof.
  intros (p & q & ->) H. rewrite !chars_app, !in_app_iff. tauto.
Qed.

Lemma replace_no_space (w : string) :
  ~ In " "%char (chars w) -> Py.replace "- " "-" w = w.
Proof.
  intros H. apply replace_absent. intros Ho. apply H.
  apply (occurs_chars "- " w); [exact Ho|]. right. now left.
Qed.

Lemma replace_before_space (w rest : string) :
  ~ In " "%char (chars w) -> Py.last w <> Some "-"%char ->
  Py.replace "- " "-" (w ++ String " " rest) = w ++ String " " (Py.replace "- " "-" rest).
Proof.
  unfold Py.replace. induction w as [|c w IH]; intros Hs Hl.
  - reflexivity.
  - cbn [append Py.replace_from].
    assert (E : Py.starts_with "- " (String c (w ++ String " " rest)) = false).
    { cbn [Py.starts_with]. destruct (Ascii.eqb_spec "-" c) as [<-|]; [|reflexivity].
      destruct w as [|d w]; [now elim Hl|]. cbn [append Py.starts_with].
      destruct (Ascii.eqb_spec " " d) as [<-|]; [|reflexivity].
      elim Hs. right. now left. }
    rewrite E. f_equal. apply IH.
    + intros H. apply Hs. now right.
    + destruct w; [discriminate|exact Hl].
Qed.

Lemma replace_minus (rest : string) :
  Py.replace "- " "-" ("- " ++ rest) = "-" ++ Py.replace "- " "-" rest.
Proof. reflexivity. Qed.

Lemma split_minus (z w : string) (ws : list string) :
  Py.split " " z = w :: ws -> Py.split " " (String "-" z) = String "-" w :: ws.
Proof. intros H. simpl. now rewrite H. Qed.

Lemma last_tail (c : ascii) (w : string) :
  w <> "" -> Py.last (String c w) = Py.last w.
Proof. now destruct w. Qed.

Lemma blocks_signed_sum (ws : list string) (v : string) :
  Forall clean ws ->
  ~ In " "%char (chars v) -> Py.last v <> Some "-"%char ->
  blocks (v ++ signed_sum ws) = v :: pieces ws.
Proof.
  unfold blocks. revert v; induction ws as [|w ws IH]; intros v Hall Hv Hl.
  - cbn [signed_sum pieces]. rewrite app_nil_r, replace_no_space by assumption.
    now apply split_no_sep.
  - inversion Hall as [|? ? (Hne & Hs & Hlast) Hws]; subst.
    destruct w as [|c w]; [congruence|].
    cbn [signed_sum pieces signed Py.first Py.tail].
    destruct (Ascii.eqb_spec c "-") as [->|Hc].
    + assert (Hw : w <> "") by (intros ->; now apply Hlast).
      change (v ++ (" - " ++ w) ++ signed_sum ws)
        with (v ++ String " " ("- " ++ (w ++ signed_sum ws))).
      rewrite replace_before_space by assumption.
      rewrite replace_minus.
      rewrite split_app_sep by assumption. f_equal.
      apply split_minus. apply IH; [assumption| |].
      * intros H. apply Hs. now right.
      * now rewrite <- (last_tail "-" w Hw).
    + change (v ++ (" + " ++ String c w) ++ signed_sum ws)
        with (v ++ String " " ("+" ++ String " " (String c w ++ signed_sum ws))).
      rewrite replace_before_space by assumption.
      rewrite (replace_before_space "+")
        by first [discriminate | simpl; intros [H|[]]; discriminate].
      rewrite split_app_sep by assumption. f_equal.
      rewrite (split_app_sep " " "+") by (simpl; intros [H|[]]; discriminate).
      f_equal. now apply IH.
Qed.

Lemma filter_pieces (ws : list string) :
  Forall clean ws ->
  filter (fun w => (1 <? String.length w)%nat) (pieces ws)
  = filter (fun w => (1 <? String.length w)%nat) ws.
Proof.
  remember (fun w => (1 <? String.length w)%nat) as f eqn:Hf.
  assert (Hplus : f "+" = false) by now subst f.
  clear Hf.
  induction ws as [|w ws IH]; intros H; [reflexivity|].
  inversion H as [|? ? (Hne & _) Hws]; subst.
  destruct w as [|c w]; [congruence|]. cbn [pieces Py.first].
  destruct (Ascii.eqb c "-"); cbn [filter]; rewrite ?Hplus, IH by assumption;
    reflexivity.
Qed.

Lemma reconstruct_then_terms (ws : list string) :
  ws <> [] -> Forall clean ws ->
  exists r, reconstruct ws = Ok r
            /\ terms r = filter (fun w => (1 <? String.length w)%nat) ws.
Proof.
  intros Hne Hall. destruct ws as [|w0 ws]; [congruence|].
  inversion Hall as [|? ? (Hw0 & Hs & Hl) Hws]; subst.
  exists (w0 ++ signed_sum ws). split.
  - unfold reconstruct. apply foldM_join.
    eapply Forall_impl; [|exact Hws]. now intros w (H & _).
  - unfold terms. rewrite blocks_signed_sum by assumption.
    cbn [filter]. now rewrite filter_pieces.
Qed.

(** X6: [reconstruct] and the split at the head of [simplifyExpanded] are
    inverse to each other up to the length filter: from the text that
    [reconstruct] builds out of terms without spaces and without a trailing
    minus sign, [simplifyExpanded] reads back those very terms, in order,
    less the terms of a single character. *)
Theorem reconstruct_terms (ws : list string) :
  ws <> [] -> Forall clean ws ->
  exists r, reconstruct ws = Ok r
            /\ terms r = filter (fun w => (1 <? String.length w)%nat) ws.
Proof. apply reconstruct_then_terms. Qed.

Lemma reconstruct_terms_witness :
  exists r, reconstruct ["a*b"; "-c*d"; "e"; "-f*g*h"] = Ok r
            /\ terms r = filter (fun w => (1 <? String.length w)%nat)
                                ["a*b"; "-c*d"; "e"; "-f*g*h"].
Proof.
  apply reconstruct_terms; [discriminate|].
  repeat (apply Forall_cons || apply Forall_nil); unfold clean; simpl;
    (split; [discriminate|split; [|discriminate]]);
    intros H; repeat (destruct H as [H|H]; [discriminate|]); exact H.
Defined.

(** ** The frequency dictionary and the chosen factor *)

Lemma get_count_var (d : dict) (v k : string) :
  get (count_var d v) k = get d k + (if String.eqb v k then 1 else 0).
Proof.
  induction d as [|[k' n] d IH]; simpl.
  - destruct (String.eqb v k); reflexivity.
  - destruct (String.eqb_spec k' v) as [->|Hv]; simpl.
    + destruct (String.eqb v k); lia.
    + destruct (String.eqb_spec k' k) as [->|Hk].
      * apply String.eqb_neq in Hv. rewrite String.eqb_sym in Hv. rewrite Hv. lia.
      * exact IH.
Qed.

Lemma keys_count_var (d : dict) (v k : string) :
  In k (map fst (count_var d v)) <-> In k (map fst d) \/ k = v.
Proof.
  induction d as [|[k' n] d IH]; simpl.
  - intuition congruence.
  - destruct (String.eqb_spec k' v) as [->|Hv]; simpl; [intuition congruence|].
    rewrite IH. tauto.
Qed.

Lemma NoDup_count_var (d : dict) (v : string) :
  NoDup (map fst d) -> NoDup (map fst (count_var d v)).
Proof.
  induction d as [|[k' n] d IH]; simpl; intros H.
  - constructor; [intros []|constructor].
  - inversion H as [|? ? Hnot Hd]; subst.
    destruct (String.eqb_spec k' v) as [->|Hv]; simpl.
    + now constructor.
    + constructor; [|now apply IH].
      rewrite keys_count_var. intros [?|?]; [contradiction|congruence].
Qed.

Lemma positive_count_var (d : dict) (v : string) :
  Forall (fun kv => 0 < snd kv) d -> Forall (fun kv => 0 < snd kv) (count_var d v).
Proof.
  induction d as [|[k' n] d IH]; simpl; intros H.
  - repeat constructor.
  - inversion H; subst. destruct (String.eqb k' v); constructor; simpl in *; auto; lia.
Qed.

Lemma In_get (d : dict) (k : string) (n : nat) :
  dict_ok d -> (In (k, n) d <-> n = get d k /\ 0 < n).
Proof.
  intros [Hnd Hpos]. induction d as [|[k' n'] d IH]; simpl.
  - split; [intros []|lia].
  - inversion Hnd as [|? ? Hnot Hd]; subst. inversion Hpos as [|? ? Hn' Hp]; subst.
    simpl in Hn'. destruct (String.eqb_spec k' k) as [->|Hk].
    + split.
      * intros [E|Hin]; [injection E as ->; lia|].
        exfalso. apply Hnot. now apply (in_map fst) in Hin.
      * intros [-> _]. now left.
    + rewrite <- IH by assumption. split; [intros [E|?]; [congruence|assumption]|now right].
Qed.

Lemma fold_count_var (l : list string) (d : dict) :
  dict_ok d ->
  dict_ok (fold_left count_var l d)
  /\ forall k, get (fold_left count_var l d) k = get d k + count_occ string_dec l k.
Proof.
  revert d; induction l as [|v l IH]; intros d [Hnd Hpos]; simpl.
  - split; [now split|intros; lia].
  - destruct (IH (count_var d v)) as [Hok Hget].
    { split; [now apply NoDup_count_var|now apply positive_count_var]. }
    split; [exact Hok|]. intros k. rewrite Hget, get_count_var.
    destruct (string_dec v k) as [->|Hvk].
    + rewrite String.eqb_refl. lia.
    + apply String.eqb_neq in Hvk. rewrite Hvk. lia.
Qed.

Lemma count_vars_fold (s : list string) (d : dict) :
  fold_left
    (fun d w => fold_left count_var (Py.split "*" (Py.replace "-" "" w)) d) s d
  = fold_left count_var (factors s) d.
Proof.
  revert d; induction s as [|w s IH]; intros d; [reflexivity|].
  unfold factors. simpl. rewrite fold_left_app. apply IH.
Qed.

Lemma count_vars_counts (s : list string) :
  NoDup (map fst (count_vars s))
  /\ forall k n, In (k, n) (count_vars s)
                 <-> n = count_occ string_dec (factors s) k /\ 0 < n.
Proof.
  unfold count_vars. rewrite count_vars_fold.
  destruct (fold_count_var (factors s) []) as [Hok Hget].
  { split; constructor. }
  split; [exact (proj1 Hok)|]. intros k n.
  rewrite (In_get _ k n Hok), Hget. reflexivity.
Qed.

(** X7: the frequency dictionary holds every factor once, and the number it
    holds for a factor is the number of times the factor occurs among the
    factors of all terms, a factor repeated inside one term being counted
    each time. *)
Theorem count_vars_occurrences (s : list string) :
  NoDup (map fst (count_vars s))
  /\ forall k n, In (k, n) (count_vars s)
                 <-> n = count_occ string_dec (factors s) k /\ 0 < n.
Proof. apply count_vars_counts. Qed.

Lemma factors_nonempty (s : list string) : s <> [] -> factors s <> [].
Proof.
  destruct s as [|w s]; [congruence|]. intros _. unfold factors. simpl.
  pose proof (split_nonempty "*" (Py.replace "-" "" w)).
  destruct (Py.split "*" (Py.replace "-" "" w)); [congruence|discriminate].
Qed.

Lemma fold_best_max (l : list (string * nat)) (b : string) (c : nat) :
  let r := fold_left best_step l (b, c) in
  (r = (b, c) \/ In r l) /\ c <= snd r /\ forall k n, In (k, n) l -> n <= snd r.
Proof.
  revert b c; induction l as [|[k' n'] l IH]; intros b c; simpl.
  - split; [now left|]. split; [lia|intros ? ? []].
  - destruct (c <? n')%nat eqn:E.
    + apply Nat.ltb_lt in E. destruct (IH k' n') as (H1 & H2 & H3).
      split; [destruct H1 as [->|H1]; [right; now left|right; now right]|].
      split; [lia|]. intros k n [Eq|Hin]; [injection Eq as _ <-; lia|eauto].
    + apply Nat.ltb_ge in E. destruct (IH b c) as (H1 & H2 & H3).
      split; [destruct H1 as [->|H1]; [now left|right; now right]|].
      split; [lia|]. intros k n [Eq|Hin]; [injection Eq as _ <-; lia|eauto].
Qed.

Lemma split_first_prefix (sep : ascii) (s w0 : string) (ws : list string) :
  Py.split sep s = w0 :: ws -> exists q, s = w0 ++ q.
Proof.
  revert w0 ws; induction s as [|b s IH]; intros w0 ws E; simpl in E.
  - injection E as <- _. now exists "".
  - pose proof (split_nonempty sep s) as Hne.
    destruct (Ascii.eqb b sep).
    + injection E as <- _. now exists (String b s).
    + destruct (Py.split sep s) as [|w1 ws1] eqn:E1; [congruence|].
      injection E as <- _. destruct (IH w1 ws1 eq_refl) as [q ->].
      now exists q.
Qed.

Lemma split_occurs (sep : ascii) (s v : string) :
  In v (Py.split sep s) -> occurs v s.
Proof.
  revert v; induction s as [|a s IH]; intros v Hv; simpl in Hv.
  - destruct Hv as [<-|[]]. now exists "", "".
  - pose proof (split_nonempty sep s) as Hne.
    destruct (Ascii.eqb a sep).
    + destruct Hv as [<-|Hv]; [now exists "", (String a s)|].
      destruct (IH v Hv) as (p & q & ->). now exists (String a p), q.
    + destruct (Py.split sep s) as [|w0 ws] eqn:E; [congruence|].
      destruct Hv as [<-|Hv].
      * destruct (split_first_prefix sep s w0 ws E) as [q ->]. now exists "", q.
      * destruct (IH v (or_intror Hv)) as (p & q & ->). now exists (String a p), q.
Qed.

Lemma occurs_trans (a b c : string) : occurs a b -> occurs b c -> occurs a c.
Proof.
  intros (p & q & ->) (p' & q' & ->). exists (p' ++ p), (q ++ q').
  now rewrite !app_assoc.
Qed.

Lemma strip_minus (w : string) :
  leading_minus_only w -> occurs (Py.replace "-" "" w) w.
Proof.
  intros [H|(b & -> & H)].
  - rewrite replace_absent; [now exists "", ""; rewrite app_nil_r|].
    intros Ho. apply H. apply (occurs_chars "-" w); [exact Ho|now left].
  - change (Py.replace "-" "" (String "-" b)) with (Py.replace "-" "" b).
    rewrite replace_absent; [now exists "-", ""; rewrite app_nil_r|].
    intros Ho. apply H. apply (occurs_chars "-" b); [exact Ho|now left].
Qed.

Lemma filter_shorter {A : Type} (f : A -> bool) (l : list A) (a : A) :
  In a l -> f a = false -> List.length (filter f l) < List.length l.
Proof.
  induction l as [|x l IH]; intros Hin Ha; [contradiction|]. simpl.
  pose proof (filter_length_le f l).
  destruct Hin as [->|Hin].
  - rewrite Ha. lia.
  - specialize (IH Hin Ha). destruct (f x); simpl; lia.
Qed.


Lemma find_None_iff (sub text : string) :
  Py.find text sub = None <-> ~ occurs sub text.
Proof.
  split; [apply find_None|]. intros H.
  destruct (Py.find text sub) as [i|] eqn:F; [|reflexivity].
  exfalso. apply H. destruct (find_Some _ _ _ F) as (p & q & E & _). now exists p, q.
Qed.







Lemma removeVariable_no_star (text s : string) :
  no_star text -> removeVariable text s = Ok text.
Proof.
  intros H. unfold removeVariable. cbn [removeSubString].
  assert (N : forall cand, In "*"%char (chars cand) -> Py.find text cand = None).
  { intros cand Hc. apply find_None_iff. intros Ho. apply H.
    now apply (occurs_chars cand text). }
  rewrite !N; [reflexivity| | |].
  - rewrite chars_app, in_app_iff. left. now left.
  - rewrite chars_app, in_app_iff. right. now left.
  - rewrite chars_app, in_app_iff. left. now left.
Qed.

Lemma occurs_refl (w : string) : occurs w w.
Proof. exists "", "". simpl. now rewrite app_nil_r. Qed.

Lemma terms_lone (w : string) : lone_factor w -> terms w = [w].
Proof.
  intros (Hl & Hs & _ & _). unfold terms, blocks.
  rewrite replace_no_space by assumption.
  rewrite split_no_sep by assumption. cbn [filter].
  apply Nat.ltb_lt in Hl. now rewrite Hl.
Qed.

Lemma count_vars_lone (w : string) : lone_factor w -> count_vars [w] = [(w, 1)].
Proof.
  intros (_ & _ & Hm & Hstar). unfold count_vars. cbn [fold_left].
  rewrite replace_absent.
  - now rewrite split_no_sep.
  - intros Ho. apply Hm. apply (occurs_chars "-" w); [exact Ho|now left].
Qed.

Lemma emit_lone (self : string -> res string) (w : string) (c : ascii) :
  lone_factor w -> Py.first w = Some c ->
  emit self [w] w
  = (inner <- (if Py.isdigit c then self w else Ok w) ;;
     Ok (w ++ "*( " ++ inner ++ " )")).
Proof.
  intros (_ & _ & _ & Hstar) Hc. unfold emit. cbn [filter].
  assert (C : Py.contains w w = true) by (apply contains_occurs, occurs_refl).
  rewrite C. cbn [negb mapM]. rewrite removeVariable_no_star by assumption.
  cbn [bind List.length Nat.eqb negb]. rewrite Hc.
  unfold reconstruct. cbn [foldM bind].
  destruct (Py.isdigit c); [destruct (self w)|]; cbn [bind];
    rewrite ?app_assoc; reflexivity.
Qed.

Section Choice.

Variable items : dict -> list (string * nat).
Hypothesis items_perm : forall d, Permutation (items d) d.

Lemma best_var_max (d : dict) :
  d <> [] -> Forall (fun kv => 0 < snd kv) d ->
  exists n, In (best_var items d, n) d /\ forall k' n', In (k', n') d -> n' <= n.
Proof.
  intros Hne Hpos. unfold best_var.
  destruct (fold_best_max (items d) "" 0) as (H1 & _ & H3).
  destruct (fold_left best_step (items d) ("", 0)) as [k n] eqn:E. simpl in *.
  assert (Hin : forall kv, In kv (items d) <-> In kv d).
  { intros kv. split; apply Permutation_in;
      [apply items_perm|apply Permutation_sym, items_perm]. }
  exists n. split.
  - destruct H1 as [Eq|H1]; [|now apply Hin].
    exfalso. injection Eq as -> ->.
    destruct d as [|[k0 n0] d]; [congruence|].
    inversion Hpos; subst. simpl in *.
    specialize (H3 k0 n0 (proj2 (Hin _) (or_introl eq_refl))). lia.
  - intros k' n' H'. apply (H3 k'). now apply Hin.
Qed.

Lemma chosen_factor (s : list string) :
  s <> [] ->
  let bestVar := best_var items (count_vars s) in
  In bestVar (factors s)
  /\ Forall (fun k => count_occ string_dec (factors s) k
                      <= count_occ string_dec (factors s) bestVar) (factors s).
Proof.
  intros Hne bestVar.
  destruct (count_vars_counts s) as [Hnd Hspec].
  assert (Hpos : Forall (fun kv => 0 < snd kv) (count_vars s)).
  { apply Forall_forall. intros [k n] H. apply Hspec in H. simpl. lia. }
  assert (Hd : count_vars s <> []).
  { pose proof (factors_nonempty s Hne) as Hf.
    assert (Hv : exists v, In v (factors s))
      by (destruct (factors s) as [|v l]; [congruence|exists v; now left]).
    destruct Hv as [v Hv]. intros Hnil.
    assert (H : In (v, count_occ string_dec (factors s) v) (count_vars s)).
    { apply Hspec. split; [reflexivity|]. now apply (count_occ_In string_dec). }
    rewrite Hnil in H. destruct H. }
  destruct (best_var_max _ Hd Hpos) as (n & Hin & Hmax). fold bestVar in Hin.
  apply Hspec in Hin as [Hn Hn0]. split.
  - apply (count_occ_In string_dec). lia.
  - apply Forall_forall. intros k Hk.
    apply (count_occ_In string_dec) in Hk.
    assert (H : In (k, count_occ string_dec (factors s) k) (count_vars s))
      by (apply Hspec; split; [reflexivity|lia]).
    apply Hmax in H. lia.
Qed.

(** X9: whatever the order in which the dictionary is read, the factor that
    [simplifyExpanded] chooses is one of the factors of the terms, and none
    of them occurs more often. *)
Theorem chosen_factor_most_frequent (s : list string) :
  s <> [] ->
  let bestVar := best_var items (count_vars s) in
  In bestVar (factors s)
  /\ Forall (fun k => count_occ string_dec (factors s) k
                      <= count_occ string_dec (factors s) bestVar) (factors s).
Proof. apply chosen_factor. Qed.

Lemma exclude_shorter (s : list string) :
  s <> [] -> Forall leading_minus_only s ->
  let bestVar := best_var items (count_vars s) in
  List.length (filter (fun w => negb (Py.contains w bestVar)) s) < List.length s.
Proof.
  intros Hne Hall bestVar.
  destruct (chosen_factor s Hne) as [Hin _]. fold bestVar in Hin.
  unfold factors in Hin. apply in_flat_map in Hin as (w & Hw & Hv).
  assert (Hc : Py.contains w bestVar = true).
  { apply contains_occurs. apply split_occurs in Hv.
    eapply occurs_trans; [exact Hv|]. apply strip_minus.
    eapply Forall_forall in Hall; eauto. }
  apply (filter_shorter _ s w Hw). now rewrite Hc.
Qed.

Lemma best_var_lone (w : string) :
  lone_factor w -> best_var items (count_vars (terms w)) = w.
Proof.
  intros H. rewrite (terms_lone w H), (count_vars_lone w H).
  apply (best_var_unique items items_perm _ w 1); [now left|lia|].
  intros k' n' [E|[]]. now left.
Qed.

Lemma simplifyExpanded_lone (fuel : nat) (w : string) (c : ascii) :
  lone_factor w -> Py.first w = Some c ->
  simplifyExpanded items (S fuel) w
  = (inner <- (if Py.isdigit c then simplifyExpanded items fuel w else Ok w) ;;
     Ok (w ++ "*( " ++ inner ++ " )")).
Proof.
  intros H Hc. rewrite simplifyExpanded_eq.
  destruct w as [|a w]; [discriminate|]. cbn [Py.is_empty]. cbv iota.
  rewrite (best_var_lone _ H), (terms_lone _ H). now apply emit_lone.
Qed.

Lemma simplifyExpanded_number (w : string) (c : ascii) (fuel : nat) :
  lone_factor w -> Py.first w = Some c -> Py.isdigit c = true ->
  simplifyExpanded items fuel w = NoFuel.
Proof.
  intros H Hc Hd. induction fuel as [|fuel IH]; [reflexivity|].
  rewrite (simplifyExpanded_lone fuel w c H Hc), Hd, IH. reflexivity.
Qed.

(** X10: an input that is a single factor of two characters or more and
    begins with a digit sends [simplifyExpanded] into a recursion on that
    same input: no recursion budget yields a result. *)
Theorem simplifyExpanded_lone_number (w : string) (c : ascii) (fuel : nat) :
  lone_factor w -> Py.first w = Some c -> Py.isdigit c = true ->
  simplifyExpanded items fuel w = NoFuel.
Proof. apply simplifyExpanded_number. Qed.

(** X11: an input that is a single factor of two characters or more and does
    not begin with a digit comes back as that factor times itself in
    brackets. *)
Theorem simplifyExpanded_lone_symbol (w : string) (c : ascii) (fuel : nat) :
  lone_factor w -> Py.first w = Some c -> Py.isdigit c = false ->
  simplifyExpanded items (S fuel) w = Ok (w ++ "*( " ++ w ++ " )").
Proof.
  intros H Hc Hd.
  rewrite (simplifyExpanded_lone fuel w c H Hc), Hd. reflexivity.
Qed.

(** X12: when the terms hold no space, end in no minus sign and have no
    minus sign after their first character, the recursive call on the terms
    set aside receives exactly those terms, and they are fewer than the
    terms of the caller. *)
Theorem simplifyExpanded_exclude_recursion (input : string) :
  let s := terms input in
  let bestVar := best_var items (count_vars s) in
  let exclude := filter (fun w => negb (Py.contains w bestVar)) s in
  Forall clean s -> Forall leading_minus_only s -> exclude <> [] ->
  exists r, reconstruct exclude = Ok r
            /\ terms r = exclude
            /\ List.length (terms r) < List.length (terms input).
Proof.
  intros s bestVar exclude Hclean Hminus Hex.
  assert (Hs : s <> []) by (intros E; apply Hex; unfold exclude; now rewrite E).
  destruct (reconstruct_then_terms exclude Hex) as (r & Hr & Ht).
  { apply Forall_forall. intros w Hw. apply filter_In in Hw as [Hw _].
    eapply Forall_forall in Hclean; eauto. }
  assert (Hlong : filter (fun w => (1 <? String.length w)%nat) exclude = exclude).
  { apply forallb_filter_id. apply forallb_forall. intros w Hw.
    apply filter_In in Hw as [Hw _]. unfold s, terms in Hw.
    now apply filter_In in Hw as [_ Hw]. }
  exists r. split; [exact Hr|]. rewrite Ht, Hlong. split; [reflexivity|].
  apply (exclude_shorter s Hs Hminus).
Qed.

End Choice.

Ltac no_char := simpl; intros H; repeat (destruct H as [H|H]; [discriminate|]); exact H.

Lemma chosen_factor_most_frequent_witness :
  let bestVar := best_var insertion_order (count_vars ["a*b"; "-c*a*a"]) in
  In bestVar (factors ["a*b"; "-c*a*a"])
  /\ Forall (fun k => count_occ string_dec (factors ["a*b"; "-c*a*a"]) k
                      <= count_occ string_dec (factors ["a*b"; "-c*a*a"]) bestVar)
            (factors ["a*b"; "-c*a*a"]).
Proof.
  apply (chosen_factor_most_frequent insertion_order (fun d => Permutation_refl d)).
  discriminate.
Defined.

Lemma simplifyExpanded_lone_number_witness :
  simplifyExpanded insertion_order 25 "100" = NoFuel.
Proof.
  apply (simplifyExpanded_lone_number insertion_order (fun d => Permutation_refl d)
           "100" "1"%char 25).
  - unfold lone_factor, no_star, chars. repeat split; [simpl; lia| | |]; no_char.
  - reflexivity.
  - reflexivity.
Defined.

Lemma simplifyExpanded_lone_symbol_witness :
  simplifyExpanded insertion_order 1 "a01" = Ok "a01*( a01 )".
Proof.
  apply (simplifyExpanded_lone_symbol insertion_order (fun d => Permutation_refl d)
           "a01" "a"%char 0).
  - unfold lone_factor, no_star, chars. repeat split; [simpl; lia| | |]; no_char.
  - reflexivity.
  - reflexivity.
Defined.

Lemma simplifyExpanded_exclude_recursion_witness :
  exists r,
    reconstruct
      (filter (fun w => negb (Py.contains w
                 (best_var insertion_order (count_vars (terms "a*b + a*c - d*e")))))
              (terms "a*b + a*c - d*e")) = Ok r
    /\ terms r
       = filter (fun w => negb (Py.contains w
                   (best_var insertion_order (count_vars (terms "a*b + a*c - d*e")))))
                (terms "a*b + a*c - d*e")
    /\ List.length (terms r) < List.length (terms "a*b + a*c - d*e").
Proof.
  apply (simplifyExpanded_exclude_recursion insertion_order
           (fun d => Permutation_refl d) "a*b + a*c - d*e").
  - change (terms "a*b + a*c - d*e") with ["a*b"; "a*c"; "-d*e"].
    repeat (apply Forall_cons || apply Forall_nil); unfold clean, chars;
      (split; [discriminate|split; [|discriminate]]); no_char.
  - change (terms "a*b + a*c - d*e") with ["a*b"; "a*c"; "-d*e"].
    repeat (apply Forall_cons || apply Forall_nil); unfold leading_minus_only, chars.
    + left. no_char.
    + left. no_char.
    + right. exists "d*e". split; [reflexivity|no_char].
  - vm_compute. discriminate.
Defined.

(** ** The recursion budget *)






(** ** The names of symMatrix and symVector *)

Lemma val_acc_app (a : nat) (s t : string) :
  val_acc a (s ++ t) = val_acc (val_acc a s) t.
Proof. revert a; induction s as [|c s IH]; intros a; simpl; [reflexivity|apply IH]. Qed.

Lemma val_acc_digit (a d : nat) :
  d < 10 -> val_acc a (String (ascii_of_nat (48 + d)) "") = 10 * a + d.
Proof.
  intros H. cbn [val_acc]. rewrite nat_ascii_embedding by lia. lia.
Qed.

Lemma div10_lt (fuel n : nat) : n < S fuel -> 10 <= n -> n / 10 < fuel.
Proof.
  intros H Hn. apply Nat.lt_le_trans with n; [apply Nat.div_lt; lia|lia].
Qed.

Lemma val_str_digits (fuel n : nat) : n < fuel -> val_acc 0 (str_digits fuel n) = n.
Proof.
  revert n; induction fuel as [|fuel IH]; intros n H; [lia|].
  cbn [str_digits]. destruct (n <? 10)%nat eqn:E.
  - apply Nat.ltb_lt in E. rewrite val_acc_digit by assumption. lia.
  - apply Nat.ltb_ge in E.
    rewrite val_acc_app, (IH _ (div10_lt fuel n H E)),
      val_acc_digit by (apply Nat.mod_upper_bound; lia).
    pose proof (Nat.div_mod_eq n 10). lia.
Qed.

Lemma val_zeros (k : nat) (s : string) : val_acc 0 (zeros k ++ s) = val_acc 0 s.
Proof. induction k as [|k IH]; [reflexivity|exact IH]. Qed.

Lemma val_zero_pad (width i : nat) : val_acc 0 (zero_pad width i) = i.
Proof. unfold zero_pad, str. rewrite val_zeros. apply val_str_digits. lia. Qed.

Lemma length_zeros (k : nat) : String.length (zeros k) = k.
Proof. induction k; simpl; congruence. Qed.

Lemma str_digits_bound (fuel n : nat) :
  n < fuel -> n < 10 ^ String.length (str_digits fuel n).
Proof.
  revert n; induction fuel as [|fuel IH]; intros n H; [lia|].
  cbn [str_digits]. destruct (n <? 10)%nat eqn:E.
  - apply Nat.ltb_lt in E. simpl. lia.
  - apply Nat.ltb_ge in E.
    rewrite length_app. cbn [String.length]. rewrite Nat.add_1_r. cbn [Nat.pow].
    specialize (IH _ (div10_lt fuel n H E)).
    pose proof (Nat.div_mod_eq n 10). pose proof (Nat.mod_upper_bound n 10). lia.
Qed.

Lemma str_digits_least (fuel n k : nat) :
  n < fuel -> 1 <= k -> n < 10 ^ k -> String.length (str_digits fuel n) <= k.
Proof.
  revert n k; induction fuel as [|fuel IH]; intros n k H Hk Hn; [lia|].
  cbn [str_digits]. destruct (n <? 10)%nat eqn:E.
  - exact Hk.
  - apply Nat.ltb_ge in E.
    rewrite length_app. cbn [String.length].
    destruct k as [|[|k]]; [lia|simpl in Hn; lia|].
    enough (String.length (str_digits fuel (n / 10)) <= S k) by lia.
    apply IH; [exact (div10_lt fuel n H E)|lia|].
    cbn [Nat.pow] in Hn. apply Nat.Div0.div_lt_upper_bound. exact Hn.
Qed.

Lemma length_str_pos (n : nat) : 1 <= String.length (str n).
Proof.
  unfold str. cbn [str_digits]. destruct (n <? 10)%nat; [simpl; lia|].
  rewrite length_app. cbn [String.length]. lia.
Qed.

Lemma length_str_le (i m : nat) :
  i <= m -> String.length (str i) <= String.length (str m).
Proof.
  intros H. unfold str. apply str_digits_least; [lia|apply (length_str_pos m)|].
  apply Nat.le_lt_trans with m; [exact H|]. apply str_digits_bound. lia.
Qed.

Lemma length_zero_pad (width i : nat) :
  String.length (str i) <= width -> String.length (zero_pad width i) = width.
Proof. intros H. unfold zero_pad. rewrite length_app, length_zeros. lia. Qed.

Lemma app_inv_head (a b c : string) : a ++ b = a ++ c -> b = c.
Proof. induction a as [|x a IH]; simpl; [auto|]. intros [= H]. auto. Qed.

Lemma app_inj_length (a a' b b' : string) :
  String.length a = String.length a' -> a ++ b = a' ++ b' -> a = a' /\ b = b'.
Proof.
  revert a'; induction a as [|x a IH]; intros [|x' a'] Hl H; simpl in *; try lia.
  - now split.
  - injection H as -> H. destruct (IH a') as [-> ->]; [lia|exact H|]. now split.
Qed.

Lemma NoDup_grid {A : Type} (f : nat -> nat -> A) (rs cs : list nat) :
  NoDup rs -> NoDup cs ->
  (forall i j i' j', In i rs -> In j cs -> In i' rs -> In j' cs ->
                     f i j = f i' j' -> i = i' /\ j = j') ->
  NoDup (concat (map (fun i => map (f i) cs) rs)).
Proof.
  intros Hrs Hcs Hinj. induction Hrs as [|i rs Hi Hrs IH]; [constructor|].
  cbn [map concat]. apply NoDup_app.
  - apply NoDup_map_NoDup_ForallPairs; [|exact Hcs].
    intros j j' Hj Hj' E. apply (Hinj i j i j'); auto; now left.
  - apply IH. intros; apply Hinj; auto; now right.
  - intros a Ha Hin. apply in_map_iff in Ha as (j & <- & Hj).
    apply in_concat in Hin as (l & Hl & Hin).
    apply in_map_iff in Hl as (i' & <- & Hi').
    apply in_map_iff in Hin as (j' & E & Hj').
    destruct (Hinj i' j' i j (or_intror Hi') Hj' (or_introl eq_refl) Hj E) as [-> _].
    contradiction.
Qed.

(** X14: the names that [symMatrix] gives to the elements of the matrix are
    all different, for every number of rows and columns and every letter. *)
Theorem symMatrix_names_distinct (numRows numCols : nat) (letter : string) :
  NoDup (concat (symMatrix numRows numCols letter)).
Proof.
  unfold symMatrix.
  set (n := Nat.max (String.length (str numRows)) (String.length (str numCols))).
  apply (NoDup_grid (fun i j => letter ++ zero_pad n i ++ zero_pad n j));
    try apply seq_NoDup.
  intros i j i' j' Hi Hj Hi' Hj' E.
  apply in_seq in Hi, Hj, Hi', Hj'. apply app_inv_head in E.
  assert (Li : String.length (zero_pad n i) = n).
  { apply length_zero_pad. pose proof (length_str_le i numRows). lia. }
  assert (Li' : String.length (zero_pad n i') = n).
  { apply length_zero_pad. pose proof (length_str_le i' numRows). lia. }
  apply app_inj_length in E as [E1 E2]; [|lia].
  apply (f_equal (val_acc 0)) in E1, E2. now rewrite !val_zero_pad in E1, E2.
Qed.

(** X15: the names that [symVector] gives to the elements of the vector are
    all different. *)
Theorem symVector_names_distinct (numRows : nat) (letter : string) :
  NoDup (symVector numRows letter).
Proof.
  unfold symVector. apply NoDup_map_NoDup_ForallPairs; [|apply seq_NoDup].
  intros i i' _ _ E. apply app_inv_head in E.
  apply (f_equal (val_acc 0)) in E. now rewrite !val_zero_pad in E.
Qed.


(** ** The cross-product matrix *)

Section CrossMatrixFacts.

Variable R : Type.
Variables (rO rI : R) (radd rmul rsub : R -> R -> R) (ropp : R -> R).
Hypothesis Rth : ring_theory rO rI radd rmul rsub ropp eq.

Add Ring Rring : Rth.

(** X17: for the column vector (a, b, c) [symCrossMat3x3] returns the matrix
    whose product with any column (x, y, z) is the cross product of
    (a, b, c) and (x, y, z); the matrix is skew-symmetric. *)
Theorem symCrossMat3x3_cross_product (a b c : R) :
  exists A,
    symCrossMat3x3 rO rI rmul ropp [[a]; [b]; [c]] = Ok A
    /\ (forall x y z,
          mat_vec rO radd rmul A [x; y; z]
          = [rsub (rmul b z) (rmul c y);
             rsub (rmul c x) (rmul a z);
             rsub (rmul a y) (rmul b x)])
    /\ (forall i j p q, entry A i j = Ok p -> entry A j i = Ok q -> p = ropp q).
Proof.
  eexists. split; [reflexivity|]. split.
  - intros x y z. cbn.
    f_equal; [ring|]. f_equal; [ring|]. f_equal. ring.
  - intros i j p q.
    destruct i as [|[|[|i]]]; destruct j as [|[|[|j]]]; cbn;
      try (destruct i); try (destruct j); cbn; try discriminate;
      intros [= <-] [= <-]; ring.
Qed.

End CrossMatrixFacts.

Lemma symCrossMat3x3_cross_product_witness :
  exists A,
    symCrossMat3x3 0%Z 1%Z Z.mul Z.opp [[1%Z]; [2%Z]; [3%Z]] = Ok A
    /\ (forall x y z,
          mat_vec 0%Z Z.add Z.mul A [x; y; z]
          = [Z.sub (Z.mul 2 z) (Z.mul 3 y);
             Z.sub (Z.mul 3 x) (Z.mul 1 z);
             Z.sub (Z.mul 1 y) (Z.mul 2 x)])
    /\ (forall i j p q, entry A i j = Ok p -> entry A j i = Ok q -> p = Z.opp q).
Proof.
  exact (symCrossMat3x3_cross_product Z 0%Z 1%Z Z.add Z.mul Z.sub Z.opp
           InitialRing.Zth 1%Z 2%Z 3%Z).
Defined.

(** X18: a vector with fewer than three rows makes [symCrossMat3x3] raise
    IndexError at its first assignment. *)
Theorem symCrossMat3x3_short {R : Type} (rO rI : R) (rmul : R -> R -> R)
    (ropp : R -> R) (v : list (list R)) :
  List.length v < 3 -> symCrossMat3x3 rO rI rmul ropp v = Raise IndexError.
Proof.
  intros H. unfold symCrossMat3x3.
  assert (E : entry v 2 0 = Raise IndexError).
  { unfold entry. destruct v as [|r0 [|r1 [|r2 v]]]; simpl in *; try reflexivity; lia. }
  now rewrite E.
Qed.

Lemma symCrossMat3x3_short_witness :
  symCrossMat3x3 0%Z 1%Z Z.mul Z.opp [[1%Z]; [2%Z]] = Raise IndexError.
Proof. apply symCrossMat3x3_short. simpl. lia. Defined.

(** ** printData *)

Lemma numbered_app (var : string) (start : nat) (rs rs' : list string) :
  numbered var start (rs ++ rs')%list
  = (numbered var start rs ++ numbered var (start + List.length rs) rs')%list.
Proof.
  unfold numbered. revert start; induction rs as [|r rs IH]; intros start.
  - simpl. now rewrite Nat.add_0_r.
  - simpl. f_equal. rewrite IH. now rewrite Nat.add_succ_r.
Qed.

Lemma Forall2_In_l {A B : Type} (P : A -> B -> Prop) (l : list A) (l' : list B) (a : A) :
  Forall2 P l l' -> In a l -> exists b, P a b.
Proof.
  induction 1 as [|x y l l' Hxy _ IH]; intros Hin; [contradiction|].
  destruct Hin as [<-|Hin]; [now exists y|now apply IH].
Qed.

Lemma select_absent (key : string) (s : list string) :
  key <> "" -> Forall (fun w => ~ occurs key w) s -> select key s = [].
Proof.
  intros Hkey H. unfold select. destruct key as [|k key]; [congruence|].
  cbn [Py.is_empty]. rewrite filter_none; [reflexivity|].
  intros w Hw. destruct (Py.contains w (String k key)) eqn:C; [|reflexivity].
  apply contains_occurs in C. eapply Forall_forall in H; eauto. contradiction.
Qed.

Section PrintDataFacts.

Variable items : dict -> list (string * nat).
Variable fuel : nat.
Variable E : Type.
Variable expand : E -> string.

Lemma write_keys (var : string) (eq : E) (keys : list string)
    (index : nat) (out : list string) (st : nat * list string) :
  foldM (write_key items fuel expand var eq) keys (index, out) = Ok st ->
  exists rs,
    Forall2 (rhs_of items fuel expand) (map (pair eq) keys) rs
    /\ st = (index + List.length keys, (out ++ numbered var index rs)%list).
Proof.
  revert index out; induction keys as [|k keys IH]; intros index out H; simpl in H.
  - injection H as <-. exists []. split; [constructor|].
    simpl. now rewrite Nat.add_0_r, List.app_nil_r.
  - destruct (extractVarEq expand eq k) as [e| |] eqn:He; cbn [bind] in H; try discriminate.
    destruct (simplifyExpanded items fuel e) as [r| |] eqn:Hr; cbn [bind] in H;
      try discriminate.
    apply IH in H as (rs & Hrs & ->). exists (r :: rs). split.
    + constructor; [now exists e|exact Hrs].
    + f_equal; [simpl; lia|].
      change (r :: rs) with ([r] ++ rs)%list.
      rewrite numbered_app, List.app_assoc. simpl. now rewrite Nat.add_1_r.
Qed.

Lemma write_rows (var : string) (keys : list string) (eqs : list E)
    (row : nat) (done : list string) (out : list string) :
  List.length done = List.length keys * row ->
  foldM (write_row items fuel expand var keys)
        (combine (seq row (List.length eqs)) eqs)
        (numbered var 0 done) = Ok out ->
  exists rs,
    Forall2 (rhs_of items fuel expand) (list_prod eqs keys) rs
    /\ out = numbered var 0 (done ++ rs)%list.
Proof.
  revert row done; induction eqs as [|eq eqs IH]; intros row done Hlen H; simpl in H.
  - injection H as <-. exists []. split; [constructor|]. now rewrite List.app_nil_r.
  - destruct (foldM (write_key items fuel expand var eq) keys _) as [st| |] eqn:Hk;
      cbn [bind] in H; try discriminate.
    apply write_keys in Hk as (rs & Hrs & ->). cbn [snd] in H.
    assert (Hl : List.length rs = List.length keys).
    { apply Forall2_length in Hrs. now rewrite length_map in Hrs. }
    rewrite <- Hlen in H.
    change (List.length done) with (0 + List.length done) in H.
    rewrite <- numbered_app in H.
    apply IH in H as (rs' & Hrs' & ->).
    + exists (rs ++ rs')%list. split.
      * cbn [list_prod]. now apply Forall2_app.
      * now rewrite List.app_assoc.
    + rewrite List.length_app, Hl, Hlen. lia.
Qed.

Lemma printData_written (var : string) (eqs : list E) (keys : list string)
    (out : list string) :
  printData items fuel expand var eqs keys = Ok out ->
  exists rs,
    Forall2 (rhs_of items fuel expand) (list_prod eqs keys) rs
    /\ out = numbered var 0 rs
    /\ List.length out = List.length eqs * List.length keys.
Proof.
  intros H. unfold printData in H.
  apply (write_rows var keys eqs 0 []) in H as (rs & Hrs & ->); [|simpl; lia].
  exists rs. split; [exact Hrs|]. split; [reflexivity|].
  cbn [app]. unfold numbered. rewrite length_map, length_combine, length_seq, Nat.min_id.
  apply Forall2_length in Hrs. now rewrite <- Hrs, length_prod.
Qed.

(** X19: when [printData] gets to the end, it has written one line for each
    equation and key, equation after equation and key after key; the lines
    carry the indices 0, 1, 2, ... without a gap, and each holds the
    simplified coefficient of its key in its equation. *)
Theorem printData_lines (var : string) (eqs : list E) (keys : list string)
    (out : list string) :
  printData items fuel expand var eqs keys = Ok out ->
  exists rs,
    Forall2 (rhs_of items fuel expand) (list_prod eqs keys) rs
    /\ out = numbered var 0 rs
    /\ List.length out = List.length eqs * List.length keys.
Proof. apply printData_written. Qed.

End PrintDataFacts.

Lemma printData_lines_witness :
  exists rs,
    Forall2 (rhs_of insertion_order 3 (fun e : string => e))
            (list_prod ["a*b*x + a*c*x + d*e*y"] ["x"; "y"]) rs
    /\ [data_line "M" 0 "a*( b + c )"; data_line "M" 1 "d*( e )"] = numbered "M" 0 rs
    /\ List.length [data_line "M" 0 "a*( b + c )"; data_line "M" 1 "d*( e )"]
       = List.length ["a*b*x + a*c*x + d*e*y"] * List.length ["x"; "y"].
Proof.
  apply (printData_lines insertion_order 3 string (fun e => e) "M"
           ["a*b*x + a*c*x + d*e*y"] ["x"; "y"]).
  reflexivity.
Defined.

(** X20: for an equation none of whose blocks contains the key, the line
    that [printData] writes has an empty right-hand side. *)
Theorem printData_absent_key {E : Type} (items : dict -> list (string * nat))
    (fuel : nat) (expand : E -> string) (var : string) (eq : E) (key : string) :
  key <> "" -> Forall (fun w => ~ occurs key w) (blocks (expand eq)) ->
  printData items (S fuel) expand var [eq] [key] = Ok [data_line var 0 ""].
Proof.
  intros Hkey H. unfold printData. cbn [List.length seq combine foldM write_row].
  cbn [foldM write_key]. unfold extractVarEq, extractVarEq_str.
  rewrite (select_absent key _ Hkey H). reflexivity.
Qed.

Lemma printData_absent_key_witness :
  printData insertion_order 1 (fun e : string => e) "M" ["a*b - c"] ["q"]
  = Ok [data_line "M" 0 ""].
Proof.
  apply (printData_absent_key insertion_order 0 (fun e : string => e) "M" "a*b - c" "q").
  - discriminate.
  - change (blocks "a*b - c") with ["a*b"; "-c"].
    repeat (apply Forall_cons || apply Forall_nil);
      intros C; apply contains_occurs in C; discriminate.
Defined.

(** X21: when the coefficient of some key in some equation is a lone number
    of two digits or more, [printData] does not get to the end, whatever the
    recursion budget and whatever the order in which the dictionary is
    read. *)
Theorem printData_number_coefficient {E : Type} (items : dict -> list (string * nat))
    (fuel : nat) (expand : E -> string) (var : string) (eqs : list E)
    (keys : list string) (eq : E) (key w : string) (c : ascii) :
  (forall d, Permutation (items d) d) ->
  In eq eqs -> In key keys ->
  extractVarEq expand eq key = Ok w ->
  lone_factor w -> Py.first w = Some c -> Py.isdigit c = true ->
  forall out, printData items fuel expand var eqs keys <> Ok out.
Proof.
  intros Hperm Heq Hkey Hw Hlone Hc Hd out H.
  apply printData_written in H as (rs & Hrs & _).
  destruct (Forall2_In_l _ _ _ (eq, key) Hrs) as (r & e & He & Hr).
  { apply in_prod; assumption. }
  cbn [fst snd] in He. rewrite Hw in He. injection He as <-.
  rewrite (simplifyExpanded_number items Hperm w c fuel Hlone Hc Hd) in Hr.
  discriminate.
Qed.

Lemma printData_number_coefficient_witness :
  printData insertion_order 40 (fun e : string => e) "M" ["a*x + 12*y"] ["x"; "y"]
  <> Ok [] /\ extractVarEq (fun e : string => e) "a*x + 12*y" "y" = Ok "12".
Proof.
  split; [|reflexivity].
  apply (printData_number_coefficient insertion_order 40 (fun e : string => e) "M"
           ["a*x + 12*y"] ["x"; "y"] "a*x + 12*y" "y" "12" "1"%char).
  - intros d. apply Permutation_refl.
  - now left.
  - right. now left.
  - reflexivity.
  - unfold lone_factor, no_star, chars. repeat split; [simpl; lia| | |]; no_char.
  - reflexivity.
  - reflexivity.
Defined.
(** ** Further edge cases *)

Lemma is_power_caret (v : string) (d : ascii) :
  v <> "" -> is_power (v ++ "^" ++ String d "") = true
             /\ Py.last (v ++ "^" ++ String d "") = Some d.
Proof.
  intros Hv. unfold is_power.
  assert (E : v ++ "^" ++ String d "" = (v ++ "^") ++ String d "")
    by now rewrite app_assoc.
  rewrite E, drop_last_snoc, last_snoc, length_app, length_app.
  change (v ++ "^") with (v ++ String "^"%char "").
  rewrite last_snoc, Ascii.eqb_refl. split; [|reflexivity].
  apply andb_true_iff. split; [|reflexivity].
  apply Nat.leb_le. destruct v; [congruence|simpl; lia].
Qed.

(** X22: a factor whose caret is followed by a character that is not a
    digit makes [expandPower] raise ValueError, provided the factors before
    it expand; nothing is returned for the factors after it. *)
Theorem expandPower_bad_exponent (neg : bool) (pre : list factor)
    (post : list string) (v : string) (d : ascii) :
  Forall factor_ok pre -> Forall no_star post ->
  v <> "" -> no_star v -> d <> "*"%char -> Py.isdigit d = false ->
  (neg = false -> unsigned_head (map factor_text pre ++ [v ++ "^" ++ String d ""])) ->
  expandPower (term neg (map factor_text pre ++ (v ++ "^" ++ String d "") :: post))
  = Raise ValueError.
Proof.
  intros Hpre Hpost Hv Hvs Hd Hdig Hhead.
  set (bad := v ++ "^" ++ String d "").
  set (fs := (map factor_text pre ++ bad :: post)%list).
  assert (Hstar : Forall no_star fs).
  { apply Forall_app. split.
    - apply Forall_map. eapply Forall_impl; [|exact Hpre].
      intros [f|u k]; simpl; [tauto|]. intros (Hu & Hs & Hk).
      now apply no_star_any_power.
    - constructor; [|exact Hpost]. unfold bad, no_star.
      rewrite !list_ascii_app, !in_app_iff. simpl.
      intros [H|[[H|[]]|[H|[]]]]; [now apply Hvs|discriminate|congruence]. }
  assert (Hne : fs <> []) by (unfold fs; now destruct (map factor_text pre)).
  assert (Hsplit : Py.split "*" (String.concat "*" fs) = fs) by now apply split_concat.
  assert (Hloop : forall acc, foldM expandPower_step fs acc = Raise ValueError).
  { intros acc. unfold fs. rewrite foldM_app, (foldM_factors _ _ Hpre). cbn [bind foldM].
    unfold expandPower_step at 1, bad.
    destruct (is_power_caret v d Hv) as [-> ->].
    unfold Py.int_of_char. rewrite Hdig. reflexivity. }
  unfold expandPower, term. destruct neg.
  - destruct fs as [|f0 fs'] eqn:Efs; [congruence|].
    change ("-" ++ String.concat "*" (f0 :: fs'))
      with (String "-"%char (String.concat "*" (f0 :: fs'))).
    cbn [Py.split]. rewrite Hsplit.
    change (Ascii.eqb "-" "*") with false. cbv iota.
    cbn [Py.first Py.tail]. rewrite Ascii.eqb_refl.
    now rewrite Hloop.
  - assert (Hh : unsigned_head fs).
    { specialize (Hhead eq_refl). unfold fs. fold bad in Hhead.
      destruct (map factor_text pre); exact Hhead. }
    destruct fs as [|f0 fs'] eqn:Efs; [congruence|].
    destruct Hh as (c & r & -> & Hc).
    change ("" ++ String.concat "*" (String c r :: fs'))
      with (String.concat "*" (String c r :: fs')).
    rewrite Hsplit. cbn [Py.first].
    apply Ascii.eqb_neq in Hc. rewrite Hc.
    now rewrite Hloop.
Qed.

Lemma expandPower_bad_exponent_witness :
  expandPower "-a^2*x^n*b^3" = Raise ValueError.
Proof.
  apply (expandPower_bad_exponent true [Power "a" 2] ["b^3"] "x" "n"%char).
  - repeat (apply Forall_cons || apply Forall_nil). simpl.
    repeat split; [discriminate| |lia]. unfold no_star. no_char.
  - repeat (apply Forall_cons || apply Forall_nil). unfold no_star. no_char.
  - discriminate.
  - unfold no_star. no_char.
  - discriminate.
  - reflexivity.
  - discriminate.
Defined.

Lemma find_self (key : string) : Py.find key key = Some 0.
Proof.
  destruct key as [|c k]; [reflexivity|].
  cbn [Py.find]. pose proof (starts_with_app (String c k) "") as H.
  rewrite app_nil_r in H. now rewrite H.
Qed.

Lemma drop_all (s : string) : Py.drop (String.length s) s = "".
Proof. pose proof (drop_app s "") as H. now rewrite app_nil_r in H. Qed.

Lemma blocks_single (w : string) : ~ In " "%char (chars w) -> blocks w = [w].
Proof.
  intros H. unfold blocks. rewrite replace_no_space by assumption.
  now apply split_no_sep.
Qed.

(** X23: when the expanded expression is the key alone, the coefficient
    returned is "1"; when it is the key with a minus sign in front, the
    coefficient is "-1". *)
Theorem extractVarEq_unit_coefficient (key : string) :
  key <> "" -> ~ In " "%char (chars key) -> ~ In "-"%char (chars key) ->
  extractVarEq (fun e : string => e) key key = Ok "1"
  /\ extractVarEq (fun e : string => e) ("-" ++ key) key = Ok "-1".
Proof.
  intros Hne Hs Hm. unfold extractVarEq, extractVarEq_str. split.
  - rewrite (blocks_single key Hs). unfold select.
    destruct key as [|c k] eqn:Ek; [congruence|]. cbn [Py.is_empty filter].
    rewrite <- Ek in *.
    assert (C : Py.contains key key = true) by (apply contains_occurs, occurs_refl).
    rewrite C. cbn [map]. unfold strip_key. rewrite find_self.
    cbn [Py.take Nat.add]. rewrite drop_all. reflexivity.
  - assert (Hb : blocks ("-" ++ key) = ["-" ++ key]).
    { apply blocks_single. simpl. intros [H|H]; [discriminate|now apply Hs]. }
    rewrite Hb. unfold select.
    destruct key as [|c k] eqn:Ek; [congruence|]. cbn [Py.is_empty filter].
    rewrite <- Ek in *.
    assert (F : Py.find ("-" ++ key) key = Some 1).
    { change ("-" ++ key) with (String "-" key). cbn [Py.find].
      assert (S0 : Py.starts_with key (String "-" key) = false).
      { rewrite Ek. cbn [Py.starts_with].
        destruct (Ascii.eqb_spec c "-") as [->|]; [|reflexivity].
        exfalso. apply Hm. rewrite Ek. now left. }
      now rewrite S0, find_self. }
    unfold Py.contains. rewrite F. cbn [map]. unfold strip_key. rewrite F.
    change ("-" ++ key) with (String "-" key).
    cbn [Py.take Py.drop Nat.add]. rewrite drop_all. reflexivity.
Qed.

Lemma extractVarEq_unit_coefficient_witness :
  extractVarEq (fun e : string => e) "x01" "x01" = Ok "1"
  /\ extractVarEq (fun e : string => e) ("-" ++ "x01") "x01" = Ok "-1".
Proof.
  apply extractVarEq_unit_coefficient; [discriminate| |]; unfold chars; no_char.
Defined.

Lemma emit_not_empty (self : string -> res string) (s : list string)
    (b out : string) :
  emit self s b = Ok out -> out <> "".
Proof.
  unfold emit.
  destruct (mapM _ _) as [include| |]; cbn [bind]; try discriminate.
  destruct (Py.first b) as [c|]; try discriminate.
  destruct (if Py.isdigit c then _ else _) as [inner| |]; cbn [bind]; try discriminate.
  assert (L : forall t, 3 <= String.length ((b ++ "*( ") ++ t))
    by (intros t; rewrite !length_app; simpl; lia).
  destruct (negb _).
  - destruct (reconstruct _) as [r| |]; cbn [bind]; try discriminate.
    destruct (self r) as [rest| |]; cbn [bind]; try discriminate.
    intros [= <-] E. specialize (L (inner ++ " )")).
    apply (f_equal String.length) in E. rewrite length_app in E. simpl in E. lia.
  - intros [= <-] E. specialize (L (inner ++ " )")). rewrite E in L. simpl in L. lia.
Qed.

(** X24: [simplifyExpanded] returns the empty string for the empty input
    and for no other. *)
Theorem simplifyExpanded_empty_result (items : dict -> list (string * nat))
    (fuel : nat) (input : string) :
  simplifyExpanded items (S fuel) input = Ok "" <-> input = "".
Proof.
  split; [|now intros ->].
  intros H. destruct input as [|c r]; [reflexivity|].
  rewrite simplifyExpanded_eq in H. cbn [Py.is_empty] in H. cbv iota in H.
  now apply emit_not_empty in H.
Qed.

(** X25: without keys [printData] calls neither function and writes no line,
    whatever the equations. *)
Theorem printData_no_keys {E : Type} (items : dict -> list (string * nat))
    (fuel : nat) (expand : E -> string) (var : string) (eqs : list E) :
  printData items fuel expand var eqs [] = Ok [].
Proof.
  unfold printData. generalize 0 as row.
  induction eqs as [|eq eqs IH]; intros row; [reflexivity|].
  cbn [List.length seq combine foldM write_row bind snd]. apply IH.
Qed.
